(** * wasm-chip8: the browser-side driver of the CHIP-8 interpreter

    A shallow embedding of [js/components/*.js] and of the two adapter
    classes [Keyboard] and [Audio]: the [chip8-emulator] custom element
    (render loop, canvas painting, program upload), the key map and the
    pressed-key table, and the tone generator.  The interpreter itself is a
    WebAssembly module; the driver sees it through the five methods it
    calls ([new], [load], [reset], [tick], [gfx]) and through the linear
    memory it exports. *)

From Stdlib Require Import ZArith NArith List Bool Lia Ascii.
From stdpp Require Import base numbers option list strings pretty gmap.

Local Open Scope Z_scope.

(* ====================================================================== *)
(** * ECMAScript values used by the driver                                 *)
(* ====================================================================== *)

Module JS.

(** A string value is a sequence of UTF-16 code units. *)
Abbreviation jsstring := (list N).

(** The code units of an ASCII literal. *)
Definition str (s : string) : jsstring :=
  map Ascii.N_of_ascii (String.list_ascii_of_string s).

(** The Number values the driver can meet: NaN, the doubles that are
    integers, and the two infinities.  [Fin 0] stands for both zeros, which
    no operation used here tells apart. *)
Inductive number :=
  | NaN
  | Fin (z : Z)
  | Inf (negative : bool).

(** Round-to-nearest, ties-to-even, of a natural number to the 53-bit
    significand of a double; [None] when the result exceeds the largest
    finite double. *)
Definition round_magnitude (a : N) : option N :=
  if (a <? 2 ^ 53)%N then Some a
  else
    let sh := (N.log2 a - 52)%N in
    let q := N.shiftr a sh in
    let r := (a mod 2 ^ sh)%N in
    let half := (2 ^ (sh - 1))%N in
    let q' := if ((half <? r) || ((r =? half) && N.odd q))%N
              then (q + 1)%N else q in
    let v := N.shiftl q' sh in
    if (v <? 2 ^ 1024)%N then Some v else None.

(** The Number value for a mathematical integer. *)
Definition number_of_Z (z : Z) : number :=
  match round_magnitude (Z.abs_N z) with
  | Some m => Fin (Z.sgn z * Z.of_N m)
  | None => Inf (z <? 0)
  end.

(** ToBoolean on numbers: NaN and the zeros are falsy. *)
Definition ToBoolean (x : number) : bool :=
  match x with
  | NaN => false
  | Fin z => negb (z =? 0)
  | Inf _ => true
  end.

(** [a || b] on numbers. *)
Definition or_else (a b : number) : number :=
  if ToBoolean a then a else b.

(** [a < b] on numbers. *)
Definition lt (a b : number) : bool :=
  match a, b with
  | NaN, _ | _, NaN => false
  | Fin x, Fin y => x <? y
  | Fin _, Inf neg => negb neg
  | Inf neg, Fin _ => neg
  | Inf n1, Inf n2 => n1 && negb n2
  end.

(** [i++] on numbers: the Number value of the successor. *)
Definition incr (a : number) : number :=
  match a with
  | Fin x => number_of_Z (x + 1)
  | other => other
  end.

(** ToString of the result of [getAttribute]: [null] prints as its name. *)
Definition ToString (v : option jsstring) : jsstring :=
  match v with
  | Some s => s
  | None => str "null"
  end.

(** WhiteSpace and LineTerminator code units (StrWhiteSpaceChar). *)
Definition isWhiteSpace (c : N) : bool :=
  ((c =? 0x09) || (c =? 0x0A) || (c =? 0x0B) || (c =? 0x0C) || (c =? 0x0D)
   || (c =? 0x20) || (c =? 0xA0) || (c =? 0x1680)
   || ((0x2000 <=? c) && (c <=? 0x200A))
   || (c =? 0x2028) || (c =? 0x2029) || (c =? 0x202F) || (c =? 0x205F)
   || (c =? 0x3000) || (c =? 0xFEFF))%N.

Fixpoint TrimStart (s : jsstring) : jsstring :=
  match s with
  | c :: rest => if isWhiteSpace c then TrimStart rest else s
  | [] => []
  end.

(** The value of a code unit as a digit, letters counting from ten. *)
Definition digit_value (c : N) : option N :=
  if ((0x30 <=? c) && (c <=? 0x39))%N then Some (c - 0x30)%N
  else if ((0x61 <=? c) && (c <=? 0x7A))%N then Some (c - 0x61 + 10)%N
  else if ((0x41 <=? c) && (c <=? 0x5A))%N then Some (c - 0x41 + 10)%N
  else None.

(** The digits of the longest prefix made of radix-[R] digits. *)
Fixpoint radix_digits (R : N) (s : jsstring) : list N :=
  match s with
  | c :: rest =>
      match digit_value c with
      | Some d => if (d <? R)%N then d :: radix_digits R rest else []
      | None => []
      end
  | [] => []
  end.

(** The integer written by a list of digits, most significant first. *)
Definition digits_value (R : N) (ds : list N) : N :=
  fold_left (fun acc d => (acc * R + d)%N) ds 0%N.

Definition is_minus (s : jsstring) : bool :=
  match s with c :: _ => (c =? 0x2D)%N | [] => false end.

Definition strip_sign (s : jsstring) : jsstring :=
  match s with
  | c :: rest => if ((c =? 0x2B) || (c =? 0x2D))%N then rest else s
  | [] => []
  end.

Definition has_hex_prefix (s : jsstring) : bool :=
  match s with
  | c0 :: c1 :: _ => ((c0 =? 0x30) && ((c1 =? 0x78) || (c1 =? 0x58)))%N
  | _ => false
  end.

(** [parseInt(string, radix)], for a radix already an integer. *)
Definition parseInt (input : option jsstring) (radix : Z) : number :=
  let S0 := TrimStart (ToString input) in
  let negative := is_minus S0 in
  let S1 := strip_sign S0 in
  if negb (radix =? 0) && ((radix <? 2) || (36 <? radix)) then NaN
  else
    let stripPrefix := (radix =? 0) || (radix =? 16) in
    let R0 := if radix =? 0 then 10 else radix in
    let hex := stripPrefix && has_hex_prefix S1 in
    let S2 := if hex then drop 2 S1 else S1 in
    let R := if hex then 16 else R0 in
    let ds := radix_digits (Z.to_N R) S2 in
    match ds with
    | [] => NaN
    | _ =>
        let mathInt := Z.of_N (digits_value (Z.to_N R) ds) in
        number_of_Z (if negative then - mathInt else mathInt)
    end.

End JS.

(* ====================================================================== *)
(** * The interpreter as the driver sees it                                 *)
(* ====================================================================== *)

(** Calls on the interpreter object.  The first five are the methods the
    driver has call sites for; the last four are the remaining operations
    of the interpreter's documented interface, which no adapter calls. *)
Inductive EmuCall :=
  | call_new
  | call_load (program : list Z)
  | call_reset
  | call_tick
  | call_gfx
  | call_set_key (index : N) (pressed : bool)
  | call_decrement_timers
  | call_delay_timer
  | call_sound_timer.

(** The WebAssembly interpreter: an opaque state with the methods the
    driver calls on it, and the linear memory the module exports.  [gfx]
    is a getter: it returns a pointer into the memory.  [load] may throw
    (a program can be too large): [emu_load_fails] tells when, and
    [emu_load] is the state the call leaves either way. *)
Class Emulator (E : Type) := {
  emu_new : E;
  emu_load : list Z -> E -> E;
  emu_load_fails : list Z -> E -> bool;
  emu_reset : E -> E;
  emu_tick : E -> E;
  emu_gfx : E -> N;
  emu_memory : E -> list Z;
}.

(* ====================================================================== *)
(** * Typed-array views                                                     *)
(* ====================================================================== *)

Module TypedArray.

(** A [Uint8Array] over a buffer is a window (offset, length) onto it; its
    elements are the buffer's bytes, not a copy. *)
Record Uint8Array := mkView { byteOffset : N; length : N }.

(** [new Uint8Array(buffer, byteOffset, length)]: a RangeError ([None])
    when the window does not fit in the buffer. *)
Definition new (buffer : list Z) (offset len : N) : option Uint8Array :=
  if (offset + len <=? N.of_nat (List.length buffer))%N
  then Some (mkView offset len)
  else None.

(** [view[i]]: [None] is [undefined], the value of an index outside the
    window. *)
Definition get (buffer : list Z) (view : Uint8Array) (i : Z) : option Z :=
  if (0 <=? i) && (i <? Z.of_N (length view))
  then buffer !! (N.to_nat (byteOffset view) + Z.to_nat i)%nat
  else None.

(** Truthiness of an element read. *)
Definition truthy (v : option Z) : bool :=
  match v with
  | Some b => negb (b =? 0)
  | None => false
  end.

End TypedArray.

(* ====================================================================== *)
(** * The canvas                                                            *)
(* ====================================================================== *)

Inductive CanvasOp :=
  | beginPath
  | fillRect (style : string) (x y w h : Z)
  | clearRect (x y w h : Z)
  | stroke.

(** The 2D context: the canvas size, the current fill style and the
    drawing operations issued so far, oldest first. *)
Record Canvas := mkCanvas {
  canvas_width : Z;
  canvas_height : Z;
  fillStyle : string;
  drawn : list CanvasOp;
}.

(** A file handed over by the file picker. *)
Record File := mkFile { file_bytes : list Z }.

Inductive exn := RangeError | TypeError | RuntimeError.

(* ====================================================================== *)
(** * Keyboard: the pressed-key table                                       *)
(* ====================================================================== *)

Module Keyboard.

(** Property names: an object is a map from strings, and a number or
    [undefined] used as a key is first printed. *)
Definition property_key (v : option N) : string :=
  match v with
  | Some n => pretty n
  | None => "undefined"
  end.

Definition KEYS_MAP : gmap string N :=
  list_to_map
    [ ("49", 1); ("50", 2); ("51", 3); ("81", 4); ("87", 5); ("69", 6);
      ("65", 7); ("83", 8); ("68", 9); ("90", 10); ("67", 11); ("52", 12);
      ("82", 13); ("70", 14); ("86", 15) ]%N.

(** [KEYS_MAP[keyCode]]: the logical key, or [undefined]. *)
Definition KEYS_MAP_get (keyCode : N) : option N :=
  KEYS_MAP !! property_key (Some keyCode).

Record KeyboardEvent := mkKeyboardEvent { keyCode : N }.

(** The instance: its [pressed] object. *)
Record t := mk { pressed : gmap string bool }.

Definition start_detection (_ : t) : t :=
  {| pressed := ∅ |}.

(** The constructor ends with [start_detection]. *)
Definition new : t :=
  start_detection {| pressed := ∅ |}.

Definition handle_keydown (e : KeyboardEvent) (this : t) : t :=
  {| pressed := <[property_key (KEYS_MAP_get (keyCode e)) := true]> (pressed this) |}.

Definition handle_keyup (e : KeyboardEvent) (this : t) : t :=
  {| pressed := <[property_key (KEYS_MAP_get (keyCode e)) := false]> (pressed this) |}.

(** [Boolean(this.pressed[key])] for a numeric [key]. *)
Definition is_key_pressed (key : N) (this : t) : bool :=
  match pressed this !! property_key (Some key) with
  | Some b => b
  | None => false
  end.

(** The events the two listeners receive. *)
Inductive KeyEvent :=
  | keydown (e : KeyboardEvent)
  | keyup (e : KeyboardEvent).

Definition dispatch (ev : KeyEvent) (this : t) : t :=
  match ev with
  | keydown e => handle_keydown e this
  | keyup e => handle_keyup e this
  end.

(** The table after a sequence of events, oldest first. *)
Definition run (evs : list KeyEvent) (this : t) : t :=
  foldl (fun kb ev => dispatch ev kb) this evs.

(** The logical key an event is about, if its code is in the map. *)
Definition event_key (ev : KeyEvent) : option N :=
  match ev with
  | keydown e | keyup e => KEYS_MAP_get (keyCode e)
  end.

Definition is_keydown (ev : KeyEvent) : bool :=
  match ev with keydown _ => true | keyup _ => false end.

(** The most recent event whose code maps to logical key [k]. *)
Definition last_event_for (k : N) (evs : list KeyEvent) : option KeyEvent :=
  last (filter (fun ev => event_key ev = Some k) evs).

End Keyboard.

(* ====================================================================== *)
(** * Audio: the tone generator                                             *)
(* ====================================================================== *)

Module Audio.

(** An oscillator node of the audio context. *)
Record OscillatorNode := mkOsc {
  osc_type : string;
  connected : bool;
  playing : bool;
}.

(** The instance: the nodes its context has created, and [this.o], a
    reference into them or [null]. *)
Record t := mk {
  ctx : list OscillatorNode;
  o : option nat;
}.

Definition new : t := {| ctx := []; o := None |}.

(** [Boolean(this.o)]: a node is truthy, [null] is not. *)
Definition is_active (this : t) : bool :=
  match o this with Some _ => true | None => false end.

Definition createOscillator (this : t) : nat * t :=
  (List.length (ctx this),
   {| ctx := ctx this ++ [mkOsc "sine" false false]; o := o this |}).

Definition update_node (f : OscillatorNode -> OscillatorNode) (r : nat) (this : t) : t :=
  {| ctx := alter f r (ctx this); o := o this |}.

Definition start (this : t) : t :=
  if negb (is_active this) then
    let '(r, this) := createOscillator this in
    let this := {| ctx := ctx this; o := Some r |} in
    let this := update_node (fun n => mkOsc "sine" (connected n) (playing n)) r this in
    let this := update_node (fun n => mkOsc (osc_type n) true (playing n)) r this in
    update_node (fun n => mkOsc (osc_type n) (connected n) true) r this
  else this.

Definition stop (this : t) : t :=
  if is_active this then
    let this :=
      match o this with
      | Some r => update_node (fun n => mkOsc (osc_type n) (connected n) false) r this
      | None => this
      end in
    {| ctx := ctx this; o := None |}
  else this.

Inductive Call := call_start | call_stop.

Definition call (c : Call) (this : t) : t :=
  match c with
  | call_start => start this
  | call_stop => stop this
  end.

Definition run (cs : list Call) (this : t) : t :=
  foldl (fun a c => call c a) this cs.

(** The nodes currently sounding. *)
Definition sounding (this : t) : nat :=
  List.length (filter (fun n => playing n = true) (ctx this)).

(** The instance is consistent when only the node [this.o] refers to is
    sounding, and that node is the last one created. *)
Definition consistent (this : t) : Prop :=
  match o this with
  | Some r =>
      exists older,
        ctx this = older ++ [mkOsc "sine" true true]
        /\ r = List.length older
        /\ Forall (fun n => playing n = false) older
  | None => Forall (fun n => playing n = false) (ctx this)
  end.

Definition is_start (c : Call) : bool :=
  match c with call_start => true | call_stop => false end.

End Audio.

(* ====================================================================== *)
(** * The chip8-emulator element                                            *)
(* ====================================================================== *)

Definition WIDTH : Z := 64.
Definition HEIGHT : Z := 32.
Definition SCALE : Z := 10.
Definition EMPTY_COLOR : string := "#0A84A0".
Definition FILL_COLOR : string := "#ffffff".

Definition getIndex (row col : Z) : Z := row * WIDTH + col.

Section Driver.

Context {E : Type} `{!Emulator E}.

(** The element together with the part of the page it acts on: its
    attributes and fields, the interpreter with the log of the calls made
    on it, the animation-frame requests and file reads the window has
    pending, and the keyboard adapter. *)
Record Page := mkPage {
  attributes : gmap string JS.jsstring;
  _programLoaded : bool;
  _animationId : option N;
  _emulator : E;
  calls : list EmuCall;
  _ctx : Canvas;
  frame_requests : list N;
  last_request : N;
  file_readers : list File;
  keyboard : Keyboard.t;
}.

Definition with_attributes (f : gmap string JS.jsstring -> gmap string JS.jsstring)
    (s : Page) : Page :=
  mkPage (f (attributes s)) (_programLoaded s) (_animationId s) (_emulator s)
    (calls s) (_ctx s) (frame_requests s) (last_request s) (file_readers s)
    (keyboard s).

Definition with_programLoaded (b : bool) (s : Page) : Page :=
  mkPage (attributes s) b (_animationId s) (_emulator s)
    (calls s) (_ctx s) (frame_requests s) (last_request s) (file_readers s)
    (keyboard s).

Definition with_animationId (a : option N) (s : Page) : Page :=
  mkPage (attributes s) (_programLoaded s) a (_emulator s)
    (calls s) (_ctx s) (frame_requests s) (last_request s) (file_readers s)
    (keyboard s).

(** A method call on the interpreter: the new state, and the call logged. *)
Definition with_emulator (c : EmuCall) (f : E -> E) (s : Page) : Page :=
  mkPage (attributes s) (_programLoaded s) (_animationId s) (f (_emulator s))
    (calls s ++ [c]) (_ctx s) (frame_requests s) (last_request s)
    (file_readers s) (keyboard s).

Definition with_ctx (f : Canvas -> Canvas) (s : Page) : Page :=
  mkPage (attributes s) (_programLoaded s) (_animationId s) (_emulator s)
    (calls s) (f (_ctx s)) (frame_requests s) (last_request s) (file_readers s)
    (keyboard s).

Definition with_frame_requests (f : list N -> list N) (n : N) (s : Page) : Page :=
  mkPage (attributes s) (_programLoaded s) (_animationId s) (_emulator s)
    (calls s) (_ctx s) (f (frame_requests s)) n (file_readers s)
    (keyboard s).

Definition with_file_readers (f : list File -> list File) (s : Page) : Page :=
  mkPage (attributes s) (_programLoaded s) (_animationId s) (_emulator s)
    (calls s) (_ctx s) (frame_requests s) (last_request s) (f (file_readers s))
    (keyboard s).

Definition with_keyboard (f : Keyboard.t -> Keyboard.t) (s : Page) : Page :=
  mkPage (attributes s) (_programLoaded s) (_animationId s) (_emulator s)
    (calls s) (_ctx s) (frame_requests s) (last_request s) (file_readers s)
    (f (keyboard s)).

(** ** Outcomes: a method returns, throws, or is still running when the
    fuel given to its loop is spent. *)
Inductive outcome :=
  | Ok (s : Page)
  | Throw (e : exn) (s : Page)
  | OutOfFuel.

Definition andThen (m : outcome) (k : Page -> outcome) : outcome :=
  match m with
  | Ok s => k s
  | other => other
  end.

(** ** Window and canvas primitives *)

(** [requestAnimationFrame(cb)]: a fresh handle, queued. *)
Definition requestAnimationFrame (s : Page) : N * Page :=
  let id := (last_request s + 1)%N in
  (id, with_frame_requests (fun q => q ++ [id]) id s).

(** [cancelAnimationFrame(handle)]: [null] names no request. *)
Definition cancelAnimationFrame (handle : option N) (s : Page) : Page :=
  match handle with
  | Some id =>
      with_frame_requests (filter (fun r => r <> id)) (last_request s) s
  | None => s
  end.

Definition ctx_beginPath : Page -> Page :=
  with_ctx (fun c => mkCanvas (canvas_width c) (canvas_height c) (fillStyle c)
                       (drawn c ++ [beginPath])).

Definition ctx_stroke : Page -> Page :=
  with_ctx (fun c => mkCanvas (canvas_width c) (canvas_height c) (fillStyle c)
                       (drawn c ++ [stroke])).

Definition ctx_set_fillStyle (style : string) : Page -> Page :=
  with_ctx (fun c => mkCanvas (canvas_width c) (canvas_height c) style (drawn c)).

Definition ctx_fillRect (x y w h : Z) : Page -> Page :=
  with_ctx (fun c => mkCanvas (canvas_width c) (canvas_height c) (fillStyle c)
                       (drawn c ++ [fillRect (fillStyle c) x y w h])).

Definition ctx_clearRect (x y w h : Z) : Page -> Page :=
  with_ctx (fun c => mkCanvas (canvas_width c) (canvas_height c) (fillStyle c)
                       (drawn c ++ [clearRect x y w h])).

(** ** The element's methods *)

(** The constructor, on the attributes the markup gave the element. *)
Definition constructor (attrs : gmap string JS.jsstring) : Page :=
  {| attributes := attrs;
     _programLoaded := false;
     _animationId := None;
     _emulator := emu_new;
     calls := [call_new];
     _ctx := mkCanvas ((SCALE + 1) * WIDTH + 1) ((SCALE + 1) * HEIGHT + 1)
               "#000000" [];
     frame_requests := [];
     last_request := 0%N;
     file_readers := [];
     keyboard := Keyboard.new |}.

Definition started (s : Page) : bool :=
  bool_decide (attributes s !! "started" = Some (JS.str "true")) || false.

Definition set_started (value : bool) : Page -> Page :=
  with_attributes
    (insert "started" (JS.str (if value then "true" else "false"))).

Definition ticksPerFrame (s : Page) : JS.number :=
  JS.or_else (JS.parseInt (attributes s !! "ticks-per-frame") 10) (JS.Fin 10).

Definition renderCellsByCond (gfx : TypedArray.Uint8Array) (style : string)
    (conditionCallback : Z -> Z -> Page -> bool) (s : Page) : Page :=
  let s := ctx_set_fillStyle style s in
  foldl (fun s row =>
    foldl (fun s col =>
      if conditionCallback row col s then s
      else ctx_fillRect (col * (SCALE + 1) + 1) (row * (SCALE + 1) + 1)
             SCALE SCALE s)
      s (seqZ 0 WIDTH))
    s (seqZ 0 HEIGHT).

(** [gfx[i]], read through the interpreter's memory. *)
Definition gfx_get (gfx : TypedArray.Uint8Array) (i : Z) (s : Page) : option Z :=
  TypedArray.get (emu_memory (_emulator s)) gfx i.

Definition renderFilledCells (gfx : TypedArray.Uint8Array) : Page -> Page :=
  renderCellsByCond gfx FILL_COLOR
    (fun row col s => negb (TypedArray.truthy (gfx_get gfx (getIndex row col) s))).

Definition renderEmptyCells (gfx : TypedArray.Uint8Array) : Page -> Page :=
  renderCellsByCond gfx EMPTY_COLOR
    (fun row col s => TypedArray.truthy (gfx_get gfx (getIndex row col) s)).

Definition renderGfx (s : Page) : outcome :=
  let buffer := emu_memory (_emulator s) in
  let ptr := emu_gfx (_emulator s) in
  let s := with_emulator call_gfx id s in
  match TypedArray.new buffer ptr (Z.to_N (WIDTH * HEIGHT)) with
  | None => Throw RangeError s
  | Some gfx =>
      let s := ctx_beginPath s in
      let s := renderFilledCells gfx s in
      let s := renderEmptyCells gfx s in
      Ok (ctx_stroke s)
  end.

(** The [for] of [loop], from counter value [i] on: the bound is read
    again before every iteration. *)
Fixpoint loop_ticks (fuel : nat) (i : JS.number) (s : Page) : outcome :=
  match fuel with
  | O => OutOfFuel
  | S fuel =>
      if JS.lt i (ticksPerFrame s)
      then loop_ticks fuel (JS.incr i) (with_emulator call_tick emu_tick s)
      else Ok s
  end.

Definition loop (fuel : nat) (s : Page) : outcome :=
  andThen (loop_ticks fuel (JS.Fin 0) s) (fun s =>
  andThen (renderGfx s) (fun s =>
  let '(id, s) := requestAnimationFrame s in
  Ok (with_animationId (Some id) s))).

Definition start (fuel : nat) (s : Page) : outcome :=
  if negb (started s) || _programLoaded s
  then andThen (loop fuel s) (fun s => Ok (set_started true s))
  else Ok s.

Definition pause (s : Page) : Page :=
  if started s then
    let s := cancelAnimationFrame (_animationId s) s in
    let s := with_animationId None s in
    set_started false s
  else s.

Definition toggle (fuel : nat) (s : Page) : outcome :=
  if started s then Ok (pause s) else start fuel s.

(** [reader.onload], on the bytes the reader has read: when [load] throws,
    the assignment after it is not reached. *)
Definition uploadProgram_onload (result : list Z) (s : Page) : outcome :=
  let program := result in
  let fails := emu_load_fails program (_emulator s) in
  let s := with_emulator (call_load program) (emu_load program) s in
  if fails then Throw RuntimeError s
  else Ok (with_programLoaded true s).

(** [uploadProgram(evt)]; [detail] is [evt.detail], the first selected
    file or [undefined].  The read it starts stays pending in the window. *)
Definition uploadProgram (detail : option File) (s : Page) : outcome :=
  let s := with_emulator call_reset emu_reset s in
  let s := ctx_clearRect 0 0 (canvas_width (_ctx s)) (canvas_height (_ctx s)) s in
  let s := pause s in
  match detail with
  | Some file => Ok (with_file_readers (fun rs => rs ++ [file]) s)
  | None => Throw TypeError s
  end.

(** [handleFileSelected] of the upload button: the event it dispatches
    carries the first of the chosen files. *)
Definition handleFileSelected (files : list File) : option File :=
  head files.

(** ** The page as a transition system *)

Inductive Event :=
  | ev_click_start
  | ev_file_selected (files : list File)
  | ev_animation_frame
  | ev_reader_load
  | ev_key (k : Keyboard.KeyEvent).

(** The state a handler leaves behind, whether it returned or threw. *)
Definition settles (o : outcome) (s' : Page) : Prop :=
  match o with
  | Ok s | Throw _ s => s' = s
  | OutOfFuel => False
  end.

Inductive step : Page -> Event -> Page -> Prop :=
  | step_click s fuel s' :
      settles (toggle fuel s) s' ->
      step s ev_click_start s'
  | step_file_selected s files s' :
      settles (uploadProgram (handleFileSelected files) s) s' ->
      step s (ev_file_selected files) s'
  | step_animation_frame s id rest fuel s' :
      frame_requests s = id :: rest ->
      settles (loop fuel (with_frame_requests (fun _ => rest) (last_request s) s)) s' ->
      step s ev_animation_frame s'
  | step_reader_load s file rest s' :
      file_readers s = file :: rest ->
      settles (uploadProgram_onload (file_bytes file)
                 (with_file_readers (fun _ => rest) s)) s' ->
      step s ev_reader_load s'
  | step_key s k :
      step s (ev_key k) (with_keyboard (Keyboard.dispatch k) s).

Inductive reachable (attrs : gmap string JS.jsstring) : Page -> Prop :=
  | reachable_init : reachable attrs (constructor attrs)
  | reachable_step s ev s' :
      reachable attrs s -> step s ev s' -> reachable attrs s'.

End Driver.

Arguments Page : clear implicits.
Arguments outcome : clear implicits.

(* ====================================================================== *)
(** * The interpreter's framebuffer                                         *)
(* ====================================================================== *)

Module Framebuffer.

(** Modelled from the spec: the framebuffer the interpreter owns (the crate
    that implements the interpreter is not among the sources).  A 64 x 32
    grid of one-bit pixels, one byte per pixel; this is its cleared state,
    the one [new], [reset], [load] and [CLS] leave. *)
Definition cleared : list Z := replicate 2048 0.

(** Modelled from the spec: the pixel of (row, col) is at index
    row * 64 + col, both coordinates wrapping around the grid. *)
Definition index (row col : Z) : nat :=
  Z.to_nat ((row mod 32) * 64 + col mod 64).

(** Modelled from the spec: XOR of one sprite bit onto a pixel; the flag
    tells that a set pixel was unset (the collision [DRW] reports). *)
Definition xor_pixel (row col : Z) (bit : bool) (st : list Z * bool) : list Z * bool :=
  let '(fb, collision) := st in
  match fb !! index row col with
  | Some old =>
      (<[index row col := Z.lxor old (Z.b2z bit)]> fb,
       collision || (negb (old =? 0) && bit))
  | None => (fb, collision)
  end.

(** Modelled from the spec: one sprite row, the eight bits of [byte] from
    the most significant, at columns [vx], [vx + 1], ... *)
Definition xor_row (vx row : Z) (byte : Z) (st : list Z * bool) : list Z * bool :=
  foldl (fun st j => xor_pixel row (vx + j) (Z.testbit byte (7 - j)) st)
    st (seqZ 0 8).

(** Modelled from the spec: [DRW Vx, Vy, n] on the [n] sprite bytes read at
    [I]; the new framebuffer and the collision flag for [VF]. *)
Definition DRW (vx vy : Z) (sprite : list Z) (fb : list Z) : list Z * bool :=
  foldl (fun st '(offset, byte) => xor_row vx (vy + Z.of_nat offset) byte st)
    (fb, false) (imap (fun i b => (i, b)) sprite).

(** Modelled from the spec: the operations that write the framebuffer; it
    is mutated only by [DRW] and cleared by [CLS], [reset] and [load]. *)
Inductive Op :=
  | op_CLS
  | op_DRW (vx vy : Z) (sprite : list Z).

Definition apply (fb : list Z) (op : Op) : list Z :=
  match op with
  | op_CLS => cleared
  | op_DRW vx vy sprite => fst (DRW vx vy sprite fb)
  end.

(** The framebuffer after a history of writes, starting cleared. *)
Definition after (ops : list Op) : list Z :=
  foldl apply cleared ops.

(** Every cell holds 0 or 1, and there are 64 x 32 of them. *)
Definition well_formed (fb : list Z) : Prop :=
  List.length fb = 2048%nat /\ Forall (fun b => b = 0 \/ b = 1) fb.

End Framebuffer.

(* ====================================================================== *)
(** * A small interpreter for the closed examples                           *)
(* ====================================================================== *)

(** An interpreter whose whole memory is its framebuffer and whose every
    instruction draws the one-pixel sprite at the top-left corner; it
    refuses a program that does not fit in 4096 bytes from 0x200 on. *)
Definition Blinker : Type := list Z.

#[export] Instance blinker_emulator : Emulator Blinker := {|
  emu_new := Framebuffer.cleared;
  emu_load := fun _ _ => Framebuffer.cleared;
  emu_load_fails := fun program _ => (4096 <? 0x200 + Z.of_nat (List.length program));
  emu_reset := fun _ => Framebuffer.cleared;
  emu_tick := fun fb => fst (Framebuffer.DRW 0 0 [0x80] fb);
  emu_gfx := fun _ => 0%N;
  emu_memory := fun fb => fb;
|}.

(** The page of a freshly constructed element around this interpreter,
    without attributes, and one whose markup asks for minus five ticks. *)
Definition example_page : Page Blinker := constructor ∅.

Definition example_page_negative : Page Blinker :=
  constructor {[ "ticks-per-frame" := JS.str "-5" ]}.

(* ====================================================================== *)
(** * Vocabulary for stating what the driver does                           *)
(* ====================================================================== *)

Section Vocabulary.

Context {E : Type} `{!Emulator E}.

(** The page after [k] calls of [tick]. *)
Fixpoint ticked (k : nat) (s : Page E) : Page E :=
  match k with
  | O => s
  | S k => ticked k (with_emulator call_tick emu_tick s)
  end.

(** The window [renderGfx] opens at [gfx()] lies inside the memory. *)
Definition gfx_fits (e : E) : Prop :=
  (emu_gfx e + Z.to_N (WIDTH * HEIGHT) <= N.of_nat (List.length (emu_memory e)))%N.

(** The byte of cell (row, col), read through the window at [gfx()]. *)
Definition pixel (e : E) (row col : Z) : option Z :=
  TypedArray.get (emu_memory e)
    (TypedArray.mkView (emu_gfx e) (Z.to_N (WIDTH * HEIGHT))) (getIndex row col).

(** The square of the canvas that shows cell (row, col). *)
Definition cell_rect (style : string) (row col : Z) : CanvasOp :=
  fillRect style (col * (SCALE + 1) + 1) (row * (SCALE + 1) + 1) SCALE SCALE.

(** [op] fills the square of cell (row, col), in whatever style. *)
Definition paints_cell (row col : Z) (op : CanvasOp) : bool :=
  match op with
  | fillRect _ x y w h =>
      (x =? col * (SCALE + 1) + 1) && (y =? row * (SCALE + 1) + 1)
      && (w =? SCALE) && (h =? SCALE)
  | _ => false
  end.

(** One pass over the grid, row by row: a square for every cell the
    condition does not skip. *)
Definition pass (style : string) (skip : Z -> Z -> bool) : list CanvasOp :=
  flat_map (fun row =>
    flat_map (fun col => if skip row col then [] else [cell_rect style row col])
      (seqZ 0 WIDTH))
    (seqZ 0 HEIGHT).

(** The drawing operations of one [renderGfx] on interpreter state [e]. *)
Definition frame_paint (e : E) : list CanvasOp :=
  [beginPath]
  ++ pass FILL_COLOR (fun row col => negb (TypedArray.truthy (pixel e row col)))
  ++ pass EMPTY_COLOR (fun row col => TypedArray.truthy (pixel e row col))
  ++ [stroke].

Definition append_drawn (ops : list CanvasOp) : Page E -> Page E :=
  with_ctx (fun c => mkCanvas (canvas_width c) (canvas_height c) (fillStyle c)
                       (drawn c ++ ops)).

(** What ties the pending animation frames to the [started] attribute. *)
Definition frames_tracked (s : Page E) : Prop :=
  frame_requests s = []
  \/ (started s = true
      /\ exists id, frame_requests s = [id] /\ _animationId s = Some id).

End Vocabulary.

(* ====================================================================== *)
(** * The attribute setter, and more vocabulary                             *)
(* ====================================================================== *)

(** Number::toString of a Number that is an integer of magnitude at most
    2^53: its decimal digits, after a minus sign when it is negative.
    (Larger doubles print the shortest digits that read back the same, and
    from 10^21 on an exponent; they are outside this definition.) *)
Definition Number_toString (z : Z) : JS.jsstring :=
  JS.str (pretty z).

Section Setters.

Context {E : Type} `{!Emulator E}.

(** [set ticksPerFrame(value)], for an integer [value] of magnitude at
    most 2^53: [setAttribute] stores the value printed. *)
Definition set_ticksPerFrame (value : Z) : Page E -> Page E :=
  with_attributes (insert "ticks-per-frame" (Number_toString value)).

End Setters.

(** The four methods other than the constructor that the driver calls. *)
Definition is_driver_call (c : EmuCall) : bool :=
  match c with
  | call_load _ | call_reset | call_tick | call_gfx => true
  | _ => false
  end.

Definition is_load (c : EmuCall) : bool :=
  match c with call_load _ => true | _ => false end.

Definition is_reset (c : EmuCall) : bool :=
  match c with call_reset => true | _ => false end.

(** Two squares of the canvas share no pixel. *)
Definition disjoint_rects (a b : CanvasOp) : Prop :=
  match a, b with
  | fillRect _ x y w h, fillRect _ x' y' w' h' =>
      x + w <= x' \/ x' + w' <= x \/ y + h <= y' \/ y' + h' <= y
  | _, _ => True
  end.

(** A drawing operation stays inside a canvas of the given size. *)
Definition inside_canvas (width height : Z) (op : CanvasOp) : Prop :=
  match op with
  | fillRect _ x y w h | clearRect x y w h =>
      0 <= x /\ 0 <= y /\ x + w <= width /\ y + h <= height
  | _ => True
  end.

(** An interpreter without memory: every window on it is out of range. *)
Definition Hollow : Type := unit.

#[export] Instance hollow_emulator : Emulator Hollow := {|
  emu_new := tt;
  emu_load := fun _ _ => tt;
  emu_load_fails := fun _ _ => false;
  emu_reset := fun _ => tt;
  emu_tick := fun _ => tt;
  emu_gfx := fun _ => 0%N;
  emu_memory := fun _ => [];
|}.

Definition hollow_page : Page Hollow := constructor ∅.

(** A page whose markup asks for 2^53 + 2 ticks per frame. *)
Definition example_page_unbounded : Page Blinker :=
  constructor {[ "ticks-per-frame" := JS.str "9007199254740994" ]}.

(* ====================================================================== *)
(** * Facts about numbers and [parseInt]                                    *)
(* ====================================================================== *)

Example parseInt_10 : JS.parseInt (Some (JS.str "10")) 10 = JS.Fin 10.
Proof. reflexivity. Qed.

Example parseInt_trailing : JS.parseInt (Some (JS.str "  -5px")) 10 = JS.Fin (-5).
Proof. reflexivity. Qed.

Example parseInt_null : JS.parseInt None 10 = JS.NaN.
Proof. reflexivity. Qed.

Example parseInt_tie_to_even :
  JS.parseInt (Some (JS.str "9007199254740993")) 10 = JS.Fin 9007199254740992.
Proof. vm_compute. reflexivity. Qed.

Lemma round_magnitude_exact (a : N) :
  (a <= 2 ^ 53)%N -> JS.round_magnitude a = Some a.
Proof.
  intros Ha. destruct (N.eq_dec a (2 ^ 53)%N) as [-> | Hne].
  - vm_compute. reflexivity.
  - unfold JS.round_magnitude.
    destruct (N.ltb_spec a (2 ^ 53)%N) as [_ | Hge]; [reflexivity | lia].
Qed.

Lemma round_magnitude_nonzero (a m : N) :
  a <> 0%N -> JS.round_magnitude a = Some m -> m <> 0%N.
Proof.
  intros Ha. unfold JS.round_magnitude.
  destruct (N.ltb_spec a (2 ^ 53)%N) as [_ | Hge]; [congruence |].
  set (sh := (N.log2 a - 52)%N).
  set (q := N.shiftr a sh).
  set (q' := if (_ || _)%bool then (q + 1)%N else q).
  destruct (N.ltb_spec (N.shiftl q' sh) (2 ^ 1024)%N) as [_ | _]; [| discriminate].
  intros [= <-].
  assert (Hq : q <> 0%N).
  { unfold q. intros Hq0. apply N.shiftr_eq_0_iff in Hq0 as [-> | [_ Hlt]].
    - congruence.
    - unfold sh in Hlt. lia. }
  assert (Hq' : q' <> 0%N) by (unfold q'; destruct (_ || _)%bool; lia).
  rewrite N.shiftl_mul_pow2.
  apply N.neq_mul_0. split; [exact Hq' |].
  apply N.pow_nonzero. lia.
Qed.

Lemma number_of_Z_exact (z : Z) :
  0 <= z <= 2 ^ 53 -> JS.number_of_Z z = JS.Fin z.
Proof.
  intros Hz. unfold JS.number_of_Z.
  rewrite round_magnitude_exact.
  - f_equal. rewrite N2Z.inj_abs_N. nia.
  - apply N2Z.inj_le. rewrite N2Z.inj_abs_N, N2Z.inj_pow. simpl Z.of_N. lia.
Qed.

Lemma number_of_Z_truthy (z : Z) :
  JS.ToBoolean (JS.number_of_Z z) = negb (z =? 0).
Proof.
  unfold JS.number_of_Z.
  destruct (JS.round_magnitude (Z.abs_N z)) as [m |] eqn:Hm; simpl.
  - destruct (Z.eqb_spec z 0) as [-> | Hz].
    + reflexivity.
    + assert (m <> 0%N) by (eapply round_magnitude_nonzero; [| exact Hm]; lia).
      destruct (Z.eqb_spec (Z.sgn z * Z.of_N m) 0); [nia | reflexivity].
  - destruct (Z.eqb_spec z 0) as [-> | Hz]; [| reflexivity].
    vm_compute in Hm. discriminate.
Qed.

Lemma number_of_Z_negative (z : Z) :
  JS.lt (JS.number_of_Z z) (JS.Fin 0) = (z <? 0).
Proof.
  unfold JS.number_of_Z.
  destruct (JS.round_magnitude (Z.abs_N z)) as [m |] eqn:Hm; simpl; [| reflexivity].
  destruct (Z.ltb_spec z 0) as [Hz | Hz].
  - assert (m <> 0%N) by (eapply round_magnitude_nonzero; [| exact Hm]; lia).
    apply Z.ltb_lt. nia.
  - apply Z.ltb_ge. nia.
Qed.

Lemma number_of_Z_positive (z : Z) :
  JS.lt (JS.Fin 0) (JS.number_of_Z z) = (0 <? z).
Proof.
  unfold JS.number_of_Z.
  destruct (JS.round_magnitude (Z.abs_N z)) as [m |] eqn:Hm; simpl.
  - destruct (Z.ltb_spec 0 z) as [Hz | Hz].
    + assert (m <> 0%N) by (eapply round_magnitude_nonzero; [| exact Hm]; lia).
      apply Z.ltb_lt. nia.
    + apply Z.ltb_ge. nia.
  - destruct (Z.ltb_spec z 0), (Z.ltb_spec 0 z); try reflexivity; try lia.
    assert (z = 0) as -> by lia. vm_compute in Hm. discriminate.
Qed.

(** A parse in radix ten is negative exactly when the text, after its
    leading white space, starts with a minus sign and the digits that follow
    do not denote zero. *)
Lemma parseInt_negative (a : option JS.jsstring) :
  JS.lt (JS.parseInt a 10) (JS.Fin 0)
  = JS.is_minus (JS.TrimStart (JS.ToString a)) && JS.ToBoolean (JS.parseInt a 10).
Proof.
  unfold JS.parseInt.
  change (negb (10 =? 0) && ((10 <? 2) || (36 <? 10))) with false. cbv iota.
  change ((10 =? 0) || (10 =? 16)) with false.
  change (false && _) with false. cbv iota zeta.
  change (if 10 =? 0 then 10 else 10) with 10.
  destruct (JS.radix_digits _ _) as [| d ds] eqn:Hds.
  - simpl. rewrite andb_false_r. reflexivity.
  - set (m := Z.of_N (JS.digits_value (Z.to_N 10) (d :: ds))).
    assert (0 <= m) by (unfold m; lia).
    rewrite number_of_Z_negative, number_of_Z_truthy.
    destruct (JS.is_minus _); simpl.
    + destruct (Z.ltb_spec (- m) 0), (Z.eqb_spec (- m) 0); simpl; lia.
    + apply Z.ltb_ge. lia.
Qed.

(* ====================================================================== *)
(** * The render loop                                                       *)
(* ====================================================================== *)

Section LoopFacts.

Context {E : Type} `{!Emulator E}.
Implicit Types s : Page E.

Lemma ticked_calls k s : calls (ticked k s) = calls s ++ replicate k call_tick.
Proof.
  revert s. induction k as [| k IH]; intros s; simpl.
  - by rewrite app_nil_r.
  - rewrite IH. simpl. by rewrite <- app_assoc.
Qed.

Lemma ticked_emulator k s :
  _emulator (ticked k s) = Nat.iter k emu_tick (_emulator s).
Proof.
  revert s. induction k as [| k IH]; intros s; [reflexivity |].
  change (ticked (S k) s) with (ticked k (with_emulator call_tick emu_tick s)).
  rewrite IH, Nat.iter_succ_r. reflexivity.
Qed.

Lemma ticked_rest k s :
  attributes (ticked k s) = attributes s
  /\ _programLoaded (ticked k s) = _programLoaded s
  /\ _animationId (ticked k s) = _animationId s
  /\ _ctx (ticked k s) = _ctx s
  /\ frame_requests (ticked k s) = frame_requests s
  /\ last_request (ticked k s) = last_request s
  /\ file_readers (ticked k s) = file_readers s
  /\ keyboard (ticked k s) = keyboard s.
Proof.
  revert s. induction k as [| k IH]; intros s; [by repeat split |].
  simpl. destruct (IH (with_emulator call_tick emu_tick s))
    as (-> & -> & -> & -> & -> & -> & -> & ->).
  by repeat split.
Qed.

(** With enough fuel the [for] runs to its end, one [tick] per value of
    the counter below the bound. *)
Lemma loop_ticks_runs n k : forall i s fuel,
  ticksPerFrame s = JS.Fin n -> n <= 2 ^ 53 -> 0 <= i ->
  k = Z.to_nat (n - i) -> (k < fuel)%nat ->
  loop_ticks fuel (JS.Fin i) s = Ok (ticked k s).
Proof.
  induction k as [| k IH]; intros i s fuel Hn Hle Hi Hk Hfuel;
    (destruct fuel as [| fuel]; [lia |]); simpl; rewrite Hn; simpl.
  - destruct (Z.ltb_spec i n); [lia | reflexivity].
  - destruct (Z.ltb_spec i n); [| lia].
    rewrite number_of_Z_exact by lia.
    apply IH; [exact Hn | lia | lia | lia | lia].
Qed.

(** However a run of the [for] ends, it has only called [tick]. *)
Lemma loop_ticks_settles fuel : forall i s s',
  settles (loop_ticks fuel i s) s' -> exists k, s' = ticked k s.
Proof.
  induction fuel as [| fuel IH]; intros i s s' Hs; simpl in Hs; [done |].
  destruct (JS.lt i (ticksPerFrame s)).
  - apply IH in Hs as [k ->]. by exists (S k).
  - exists O. exact Hs.
Qed.

(** A bound above 2^53 is out of the counter's reach: [i++] leaves 2^53
    where it is, and the [for] never ends. *)
Lemma loop_ticks_stalls fuel : forall i s,
  JS.lt (JS.Fin (2 ^ 53)) (ticksPerFrame s) = true -> 0 <= i <= 2 ^ 53 ->
  loop_ticks fuel (JS.Fin i) s = OutOfFuel.
Proof.
  induction fuel as [| fuel IH]; intros i s Hbig Hi; [reflexivity |].
  cbn [loop_ticks].
  assert (Hlt : JS.lt (JS.Fin i) (ticksPerFrame s) = true).
  { destruct (ticksPerFrame s) as [| n | neg]; simpl in *; [done | | done].
    apply Z.ltb_lt in Hbig. apply Z.ltb_lt. lia. }
  rewrite Hlt. destruct (Z.eq_dec i (2 ^ 53)) as [-> | Hne].
  - change (JS.incr (JS.Fin (2 ^ 53))) with (JS.number_of_Z (2 ^ 53 + 1)).
    replace (JS.number_of_Z (2 ^ 53 + 1)) with (JS.Fin (2 ^ 53))
      by (vm_compute; reflexivity).
    apply IH; [exact Hbig | lia].
  - cbn [JS.incr]. rewrite number_of_Z_exact by lia.
    apply IH; [exact Hbig | lia].
Qed.

End LoopFacts.

(* ====================================================================== *)
(** * Painting the framebuffer                                              *)
(* ====================================================================== *)

Section RenderFacts.

Context {E : Type} `{!Emulator E}.
Implicit Types s : Page E.

Lemma append_drawn_nil s : append_drawn [] s = s.
Proof.
  destruct s as [? ? ? ? ? [? ? ? ?] ? ? ? ?].
  unfold append_drawn, with_ctx; simpl. by rewrite app_nil_r.
Qed.

Lemma append_drawn_app a b s :
  append_drawn b (append_drawn a s) = append_drawn (a ++ b) s.
Proof. unfold append_drawn, with_ctx; simpl. by rewrite app_assoc. Qed.

Lemma set_fillStyle_append_drawn style ops s :
  ctx_set_fillStyle style (append_drawn ops s)
  = append_drawn ops (ctx_set_fillStyle style s).
Proof. reflexivity. Qed.

Lemma set_fillStyle_twice a b s :
  ctx_set_fillStyle a (ctx_set_fillStyle b s) = ctx_set_fillStyle a s.
Proof. reflexivity. Qed.

(** The inner [for] of [renderCellsByCond], for a condition that does not
    look at the canvas. *)
Lemma render_row style (cond : Z -> Z -> Page E -> bool) (skip : Z -> Z -> bool) row :
  (forall r c ops s, cond r c (append_drawn ops s) = cond r c s) ->
  forall cols s,
  (forall r c, cond r c s = skip r c) ->
  fillStyle (_ctx s) = style ->
  foldl (fun s col =>
           if cond row col s then s
           else ctx_fillRect (col * (SCALE + 1) + 1) (row * (SCALE + 1) + 1)
                  SCALE SCALE s) s cols
  = append_drawn
      (flat_map (fun col => if skip row col then [] else [cell_rect style row col]) cols)
      s.
Proof.
  intros Hinv cols. induction cols as [| col cols IH]; intros s Hskip Hstyle; simpl.
  - by rewrite append_drawn_nil.
  - rewrite Hskip. destruct (skip row col); simpl.
    + by apply IH.
    + change (ctx_fillRect ?x ?y ?w ?h s)
        with (append_drawn [fillRect (fillStyle (_ctx s)) x y w h] s).
      rewrite Hstyle, IH.
      * by rewrite append_drawn_app.
      * intros r c. by rewrite Hinv.
      * exact Hstyle.
Qed.

Lemma render_rows style (cond : Z -> Z -> Page E -> bool) (skip : Z -> Z -> bool) :
  (forall r c ops s, cond r c (append_drawn ops s) = cond r c s) ->
  forall rows s,
  (forall r c, cond r c s = skip r c) ->
  fillStyle (_ctx s) = style ->
  foldl (fun s row =>
    foldl (fun s col =>
             if cond row col s then s
             else ctx_fillRect (col * (SCALE + 1) + 1) (row * (SCALE + 1) + 1)
                    SCALE SCALE s) s (seqZ 0 WIDTH)) s rows
  = append_drawn
      (flat_map (fun row =>
         flat_map (fun col => if skip row col then [] else [cell_rect style row col])
           (seqZ 0 WIDTH)) rows)
      s.
Proof.
  intros Hinv rows. induction rows as [| row rows IH]; intros s Hskip Hstyle.
  - simpl. by rewrite append_drawn_nil.
  - cbn [foldl flat_map].
    rewrite (render_row style cond skip row Hinv _ s Hskip Hstyle).
    rewrite IH.
    + by rewrite append_drawn_app.
    + intros r c. by rewrite Hinv.
    + exact Hstyle.
Qed.

Lemma renderCellsByCond_paints gfx style cond s :
  (forall r c ops s, cond r c (append_drawn ops s) = cond r c s) ->
  (forall r c st s, cond r c (ctx_set_fillStyle st s) = cond r c s) ->
  renderCellsByCond gfx style cond s
  = append_drawn (pass style (fun r c => cond r c s)) (ctx_set_fillStyle style s).
Proof.
  intros Hinv Hstyle. unfold renderCellsByCond, pass.
  apply render_rows; [exact Hinv | | reflexivity].
  intros r c. apply Hstyle.
Qed.

(** [renderGfx], when the window fits: one [gfx] call and the frame's
    drawing operations; every other part of the page is left as it was. *)
Lemma renderGfx_runs s :
  gfx_fits (_emulator s) ->
  renderGfx s
  = Ok (append_drawn (frame_paint (_emulator s))
          (ctx_set_fillStyle EMPTY_COLOR (with_emulator call_gfx id s))).
Proof.
  intros Hfit. unfold renderGfx, TypedArray.new.
  destruct (N.leb_spec (emu_gfx (_emulator s) + Z.to_N (WIDTH * HEIGHT))
              (N.of_nat (List.length (emu_memory (_emulator s)))))
    as [_ | Hbad]; [| unfold gfx_fits in Hfit; lia].
  f_equal. unfold renderFilledCells, renderEmptyCells.
  rewrite !renderCellsByCond_paints by reflexivity.
  change (ctx_stroke ?x) with (append_drawn [stroke] x).
  change (ctx_beginPath ?x) with (append_drawn [beginPath] x).
  rewrite !set_fillStyle_append_drawn, !append_drawn_app, set_fillStyle_twice.
  reflexivity.
Qed.

(** When it does not fit, the constructor of the view throws, after the
    [gfx] call and before anything is drawn. *)
Lemma renderGfx_throws s :
  ~ gfx_fits (_emulator s) ->
  renderGfx s = Throw RangeError (with_emulator call_gfx id s).
Proof.
  intros Hfit. unfold renderGfx, TypedArray.new.
  destruct (N.leb_spec (emu_gfx (_emulator s) + Z.to_N (WIDTH * HEIGHT))
              (N.of_nat (List.length (emu_memory (_emulator s)))))
    as [Hok | _]; [| reflexivity].
  by destruct Hfit.
Qed.

Lemma gfx_fits_or_not (e : E) : gfx_fits e \/ ~ gfx_fits e.
Proof. unfold gfx_fits. lia. Qed.

End RenderFacts.

Section PaintFacts.

Context {E : Type} `{!Emulator E}.
Implicit Types s : Page E.

Lemma filter_flat_map_nil {A} (P : CanvasOp -> bool) (f : A -> list CanvasOp) l :
  (forall y, y ∈ l -> List.filter P (f y) = []) ->
  List.filter P (flat_map f l) = [].
Proof.
  induction l as [| x l IH]; intros Hl; simpl; [reflexivity |].
  rewrite List.filter_app, Hl by apply list_elem_of_here.
  apply IH. intros y Hy. apply Hl. by apply list_elem_of_further.
Qed.

Lemma filter_flat_map_one {A} (P : CanvasOp -> bool) (f : A -> list CanvasOp) l1 x l2 :
  (forall y, y ∈ l1 -> List.filter P (f y) = []) ->
  (forall y, y ∈ l2 -> List.filter P (f y) = []) ->
  List.filter P (flat_map f (l1 ++ x :: l2)) = List.filter P (f x).
Proof.
  intros H1 H2. rewrite flat_map_app, List.filter_app. simpl.
  rewrite List.filter_app, !filter_flat_map_nil by assumption.
  by rewrite app_nil_r.
Qed.

Lemma seqZ_split (n k : Z) :
  0 <= k < n -> seqZ 0 n = seqZ 0 k ++ k :: seqZ (k + 1) (n - k - 1).
Proof.
  intros Hk. replace n with (k + (n - k)) at 1 by lia.
  rewrite seqZ_app by lia. f_equal.
  rewrite seqZ_cons by lia.
  replace (0 + k) with k by lia.
  replace (Z.succ k) with (k + 1) by lia.
  replace (Z.pred (n - k)) with (n - k - 1) by lia.
  reflexivity.
Qed.

Lemma paints_cell_rect style row col row' col' :
  paints_cell row col (cell_rect style row' col')
  = (row =? row') && (col =? col').
Proof.
  unfold paints_cell, cell_rect, SCALE. simpl.
  destruct (Z.eqb_spec row row'), (Z.eqb_spec col col');
    repeat match goal with
           | |- context [?a =? ?b] => destruct (Z.eqb_spec a b); try lia
           end; reflexivity.
Qed.

(** Of the squares of one pass, the one at (row, col) is that cell's, and
    it is there unless the condition skipped the cell. *)
Lemma filter_pass style skip row col :
  0 <= row < HEIGHT -> 0 <= col < WIDTH ->
  List.filter (paints_cell row col) (pass style skip)
  = if skip row col then [] else [cell_rect style row col].
Proof.
  intros Hrow Hcol. unfold pass.
  assert (Hother : forall r, r <> row ->
    List.filter (paints_cell row col)
      (flat_map (fun c => if skip r c then [] else [cell_rect style r c])
         (seqZ 0 WIDTH)) = []).
  { intros r Hr. apply filter_flat_map_nil. intros c _.
    destruct (skip r c); [reflexivity |]. cbn [List.filter].
    rewrite paints_cell_rect. destruct (Z.eqb_spec row r); [congruence | reflexivity]. }
  rewrite (seqZ_split HEIGHT row Hrow).
  rewrite filter_flat_map_one.
  - rewrite (seqZ_split WIDTH col Hcol).
    rewrite filter_flat_map_one.
    + destruct (skip row col); [reflexivity |]. cbn [List.filter].
      rewrite paints_cell_rect, !Z.eqb_refl. reflexivity.
    + intros c Hc%elem_of_seqZ. destruct (skip row c); [reflexivity |]. cbn [List.filter].
      rewrite paints_cell_rect. destruct (Z.eqb_spec col c); [lia |].
      by rewrite andb_false_r.
    + intros c Hc%elem_of_seqZ. destruct (skip row c); [reflexivity |]. cbn [List.filter].
      rewrite paints_cell_rect. destruct (Z.eqb_spec col c); [lia |].
      by rewrite andb_false_r.
  - intros r Hr%elem_of_seqZ. apply Hother. lia.
  - intros r Hr%elem_of_seqZ. apply Hother. lia.
Qed.

Lemma length_flat_map_pair {A B} (f g : A -> list B) (k : nat) l :
  (forall x, List.length (f x) + List.length (g x) = k)%nat ->
  (List.length (flat_map f l) + List.length (flat_map g l) = k * List.length l)%nat.
Proof.
  intros Hfg. induction l as [| x l IH]; simpl; [lia |].
  rewrite !length_app. specialize (Hfg x). lia.
Qed.

(** The two passes together draw as many squares as there are cells. *)
Lemma length_passes style1 style2 skip :
  (List.length (pass style1 (fun r c => negb (skip r c)))
   + List.length (pass style2 skip) = Z.to_nat (WIDTH * HEIGHT))%nat.
Proof.
  unfold pass.
  rewrite (length_flat_map_pair _ _ (Z.to_nat WIDTH)).
  - rewrite length_seqZ. unfold WIDTH, HEIGHT. lia.
  - intros row.
    rewrite (length_flat_map_pair _ _ 1%nat).
    + rewrite length_seqZ. lia.
    + intros col. by destruct (skip row col).
Qed.

(** Inside the window, a cell's byte is the memory byte at the window's
    offset plus the cell's index. *)
Lemma pixel_in_memory (e : E) row col :
  gfx_fits e -> 0 <= row < HEIGHT -> 0 <= col < WIDTH ->
  exists b,
    pixel e row col = Some b
    /\ emu_memory e !! (N.to_nat (emu_gfx e) + Z.to_nat (getIndex row col))%nat = Some b.
Proof.
  intros Hfit Hrow Hcol. unfold pixel, TypedArray.get, gfx_fits in *.
  cbn [TypedArray.length TypedArray.byteOffset].
  unfold getIndex, WIDTH, HEIGHT in *.
  destruct (Z.leb_spec 0 (row * 64 + col)); [| lia].
  destruct (Z.ltb_spec (row * 64 + col) (Z.of_N (Z.to_N (64 * 32)))); [| lia].
  simpl andb. cbv iota.
  destruct (lookup_lt_is_Some_2 (emu_memory e)
              (N.to_nat (emu_gfx e) + Z.to_nat (row * 64 + col))%nat) as [b Hb].
  { lia. }
  exists b. by split.
Qed.

End PaintFacts.

(* ====================================================================== *)
(** * One frame of the driver                                               *)
(* ====================================================================== *)

Section FrameFacts.

Context {E : Type} `{!Emulator E}.
Implicit Types s : Page E.

(** The page one frame later, when the bound of the [for] is [n]. *)
Lemma loop_runs s n fuel :
  ticksPerFrame s = JS.Fin n -> n <= 2 ^ 53 ->
  gfx_fits (_emulator (ticked (Z.to_nat n) s)) ->
  (Z.to_nat n < fuel)%nat ->
  let s1 := ticked (Z.to_nat n) s in
  let s2 := append_drawn (frame_paint (_emulator s1))
              (ctx_set_fillStyle EMPTY_COLOR (with_emulator call_gfx id s1)) in
  loop fuel s
  = Ok (with_animationId (Some (last_request s + 1)%N)
          (with_frame_requests (fun q => q ++ [(last_request s + 1)%N])
             (last_request s + 1)%N s2)).
Proof.
  intros Hn Hle Hfit Hfuel s1 s2. unfold loop.
  rewrite (loop_ticks_runs n (Z.to_nat n) 0 s fuel Hn Hle) by lia.
  cbn [andThen]. fold s1. rewrite (renderGfx_runs s1 Hfit). cbn [andThen].
  fold s2. unfold requestAnimationFrame.
  destruct (ticked_rest (Z.to_nat n) s) as (_ & _ & _ & _ & _ & Hlast & _ & _).
  replace (last_request s2) with (last_request s) by (symmetry; exact Hlast).
  reflexivity.
Qed.

(** However a frame ends, the calls it made on the interpreter are some
    [tick]s followed by one [gfx]; and either it threw before asking for
    the next frame, or it has queued one request and remembers its handle. *)
Lemma loop_settles fuel s s' :
  settles (loop fuel s) s' ->
  exists k,
    calls s' = calls s ++ replicate k call_tick ++ [call_gfx]
    /\ _emulator s' = Nat.iter k emu_tick (_emulator s)
    /\ keyboard s' = keyboard s
    /\ attributes s' = attributes s
    /\ file_readers s' = file_readers s
    /\ _programLoaded s' = _programLoaded s
    /\ match loop fuel s with
       | Ok _ => exists id, frame_requests s' = frame_requests s ++ [id]
                            /\ _animationId s' = Some id
       | _ => frame_requests s' = frame_requests s
              /\ _animationId s' = _animationId s
       end.
Proof.
  unfold loop. intros Hs.
  destruct (loop_ticks fuel (JS.Fin 0) s) as [s1 | e s1 |] eqn:Hticks;
    cbn [andThen] in Hs |- *.
  - assert (Hk : exists k, s1 = ticked k s).
    { eapply loop_ticks_settles. rewrite Hticks. reflexivity. }
    destruct Hk as [k ->]. exists k.
    destruct (ticked_rest k s) as (Ha & Hp & Hid & _ & Hfr & _ & Hf & Hkb).
    assert (Hc := ticked_calls k s). assert (He := ticked_emulator k s).
    destruct (gfx_fits_or_not (_emulator (ticked k s))) as [Hfit | Hfit].
    + rewrite (renderGfx_runs _ Hfit) in Hs |- *. cbn [andThen] in Hs |- *.
      simpl in Hs. subst s'. simpl.
      rewrite Hc, He, Ha, Hp, Hf, Hkb, Hfr, <- app_assoc.
      repeat split; try reflexivity. by eexists.
    + rewrite (renderGfx_throws _ Hfit) in Hs |- *. cbn [andThen] in Hs |- *.
      simpl in Hs. subst s'. simpl.
      rewrite Hc, He, Ha, Hp, Hf, Hkb, Hfr, Hid, <- app_assoc.
      by repeat split.
  - exfalso. clear Hs. revert Hticks. generalize (JS.Fin 0). revert s.
    induction fuel as [| fuel IH]; intros s i; simpl; [discriminate |].
    destruct (JS.lt i (ticksPerFrame s)); [apply IH | discriminate].
  - destruct Hs.
Qed.

Lemma lt_counter_mono i j (bound : JS.number) :
  i <= j -> JS.lt (JS.Fin j) bound = true -> JS.lt (JS.Fin i) bound = true.
Proof.
  intros Hij. destruct bound as [| n | neg]; simpl; [done | | done].
  intros Hj%Z.ltb_lt. apply Z.ltb_lt. lia.
Qed.

(** A run of the [for] that ends has called [tick] once for each value of
    the counter that is below the bound, and for no other. *)
Lemma loop_ticks_count fuel : forall i s s',
  0 <= i <= 2 ^ 53 ->
  settles (loop_ticks fuel (JS.Fin i) s) s' ->
  exists k,
    s' = ticked k s
    /\ forall j, i <= j ->
         (JS.lt (JS.Fin j) (ticksPerFrame s) = true <-> j < i + Z.of_nat k).
Proof.
  induction fuel as [| fuel IH]; intros i s s' Hi Hs; cbn [loop_ticks] in Hs;
    [done |].
  destruct (JS.lt (JS.Fin i) (ticksPerFrame s)) eqn:Hlt.
  - destruct (Z.eq_dec i (2 ^ 53)) as [-> | Hne].
    + exfalso.
      change (JS.incr (JS.Fin (2 ^ 53))) with (JS.number_of_Z (2 ^ 53 + 1)) in Hs.
      replace (JS.number_of_Z (2 ^ 53 + 1)) with (JS.Fin (2 ^ 53)) in Hs
        by (vm_compute; reflexivity).
      rewrite (loop_ticks_stalls fuel (2 ^ 53)
                 (with_emulator call_tick emu_tick s) Hlt) in Hs by lia.
      exact Hs.
    + cbn [JS.incr] in Hs. rewrite number_of_Z_exact in Hs by lia.
      apply IH in Hs as (k & -> & Hk); [| lia].
      exists (S k). split; [reflexivity |].
      intros j Hj. destruct (Z.eq_dec j i) as [-> | Hji].
      * split; [lia | intros _; exact Hlt].
      * change (ticksPerFrame (with_emulator call_tick emu_tick s))
          with (ticksPerFrame s) in Hk.
        rewrite (Hk j) by lia. lia.
  - exists O. split; [exact Hs |].
    intros j Hj. split; [| lia].
    intros Hjlt. rewrite (lt_counter_mono i j _ Hj Hjlt) in Hlt. discriminate.
Qed.

(** However a frame ends, its [tick]s are one per counter value below the
    bound, followed by one [gfx]. *)
Lemma loop_settles_count fuel s s' :
  settles (loop fuel s) s' ->
  exists k,
    calls s' = calls s ++ replicate k call_tick ++ [call_gfx]
    /\ _emulator s' = Nat.iter k emu_tick (_emulator s)
    /\ forall i, 0 <= i ->
         (JS.lt (JS.Fin i) (ticksPerFrame s) = true <-> i < Z.of_nat k).
Proof.
  intros Hs.
  assert (Hticks : exists s1, loop_ticks fuel (JS.Fin 0) s = Ok s1).
  { unfold loop in Hs.
    destruct (loop_ticks fuel (JS.Fin 0) s) as [s1 | e s1 |] eqn:Hticks;
      [by eexists | | destruct Hs].
    exfalso. clear Hs. revert Hticks. generalize (JS.Fin 0). revert s.
    induction fuel as [| fuel IH]; intros s i; simpl; [discriminate |].
    destruct (JS.lt i (ticksPerFrame s)); [apply IH | discriminate]. }
  destruct Hticks as [s1 Hticks].
  destruct (loop_ticks_count fuel 0 s s1) as (k & -> & Hk); [lia | by rewrite Hticks |].
  exists k. unfold loop in Hs. rewrite Hticks in Hs. cbn [andThen] in Hs.
  assert (Hc := ticked_calls k s). assert (He := ticked_emulator k s).
  split; [| split].
  - destruct (gfx_fits_or_not (_emulator (ticked k s))) as [Hfit | Hfit].
    + rewrite (renderGfx_runs _ Hfit) in Hs. cbn [andThen] in Hs.
      simpl in Hs. subst s'. simpl. by rewrite Hc, <- app_assoc.
    + rewrite (renderGfx_throws _ Hfit) in Hs. cbn [andThen] in Hs.
      simpl in Hs. subst s'. simpl. by rewrite Hc, <- app_assoc.
  - destruct (gfx_fits_or_not (_emulator (ticked k s))) as [Hfit | Hfit].
    + rewrite (renderGfx_runs _ Hfit) in Hs. cbn [andThen] in Hs.
      simpl in Hs. subst s'. simpl. exact He.
    + rewrite (renderGfx_throws _ Hfit) in Hs. cbn [andThen] in Hs.
      simpl in Hs. subst s'. simpl. exact He.
  - intros i Hi. rewrite (Hk i Hi). lia.
Qed.

Lemma truthy_sign (b : JS.number) :
  JS.ToBoolean b = true ->
  JS.lt (JS.Fin 0) b = negb (JS.lt b (JS.Fin 0)).
Proof.
  destruct b as [| z | neg]; simpl; [discriminate | | by destruct neg].
  destruct (Z.eqb_spec z 0); [discriminate |]. intros _.
  destruct (Z.ltb_spec 0 z), (Z.ltb_spec z 0); simpl; lia.
Qed.

End FrameFacts.

(* ====================================================================== *)
(** * The driver's contract with the interpreter and the canvas             *)
(* ====================================================================== *)

Section DriverContract.

Context {E : Type} `{!Emulator E}.
Implicit Types s : Page E.

(** C1.  A frame of the running driver: with [n] the value of
    [ticksPerFrame], [loop] calls [tick] once for every counter value
    0, 1, ..., n - 1 (so [n] times; none when [n] is negative), then makes
    one [gfx] call and paints the frame from the interpreter's state after
    the last tick, and requests the next animation frame.  The bound must be
    one the counter can reach (at most 2^53) and the window at [gfx()] must
    lie in the memory, or the frame is never painted. *)
Theorem loop_ticks_then_one_redraw s n :
  ticksPerFrame s = JS.Fin n -> n <= 2 ^ 53 ->
  gfx_fits (_emulator (ticked (Z.to_nat n) s)) ->
  exists s',
    (forall fuel, (Z.to_nat n < fuel)%nat -> loop fuel s = Ok s')
    /\ calls s' = calls s ++ replicate (Z.to_nat n) call_tick ++ [call_gfx]
    /\ _emulator s' = Nat.iter (Z.to_nat n) emu_tick (_emulator s)
    /\ drawn (_ctx s') = drawn (_ctx s) ++ frame_paint (_emulator s')
    /\ frame_requests s' = frame_requests s ++ [(last_request s + 1)%N]
    /\ _animationId s' = Some (last_request s + 1)%N.
Proof.
  intros Hn Hle Hfit. eexists. split.
  { intros fuel Hfuel. exact (loop_runs s n fuel Hn Hle Hfit Hfuel). }
  destruct (ticked_rest (Z.to_nat n) s) as (_ & _ & _ & Hctx & Hreq & _ & _ & _).
  simpl. rewrite ticked_calls, ticked_emulator, Hctx, Hreq, <- app_assoc.
  by repeat split.
Qed.

(** C2, as the code has it.  A frame of the driver makes no call that
    decrements a timer: however [loop] ends, the calls it has made on the
    interpreter are one [tick] for each value 0, 1, 2, ... of the counter
    that is below [ticksPerFrame] (so [ticksPerFrame] of them when that is
    a positive integer, none when it is negative), followed by one [gfx];
    and the interpreter's state is the one those [tick]s produced.  Timers
    are left to the interpreter. *)
Theorem loop_calls_only_tick_and_gfx fuel s s' :
  settles (loop fuel s) s' ->
  exists k,
    calls s' = calls s ++ replicate k call_tick ++ [call_gfx]
    /\ (forall i, 0 <= i ->
        (JS.lt (JS.Fin i) (ticksPerFrame s) = true <-> i < Z.of_nat k))
    /\ (forall n, ticksPerFrame s = JS.Fin n -> k = Z.to_nat n)
    /\ ~ In call_decrement_timers (replicate k call_tick ++ [call_gfx])
    /\ _emulator s' = Nat.iter k emu_tick (_emulator s).
Proof.
  intros Hs. destruct (loop_settles_count fuel s s' Hs) as (k & Hc & He & Hk).
  exists k. split; [exact Hc |]. split; [exact Hk |].
  split; [| split; [| exact He]].
  - intros n Hn. rewrite Hn in Hk. simpl in Hk.
    pose proof (Hk 0 ltac:(lia)) as H0.
    destruct (Z.le_gt_cases n 0) as [Hle | Hpos].
    + rewrite Z.ltb_lt in H0. lia.
    + pose proof (Hk (n - 1) ltac:(lia)) as H1.
      pose proof (Hk n ltac:(lia)) as H2.
      rewrite Z.ltb_lt in H1, H2. lia.
  - rewrite in_app_iff. intros [Hin | [Hin | []]]; [| discriminate].
    apply list_elem_of_In, elem_of_replicate in Hin as [Hin _]. discriminate.
Qed.

(** C5.  One [renderGfx]: every cell of the 64 x 32 grid gets exactly one
    square, white when its byte is not zero and the background colour when
    it is; nothing else is filled (the frame is those 2048 squares between
    [beginPath] and [stroke]); and the interpreter, with the memory the
    grid lives in, is left as it was. *)
Theorem renderGfx_paints_every_cell_once s :
  gfx_fits (_emulator s) ->
  exists s',
    renderGfx s = Ok s'
    /\ drawn (_ctx s') = drawn (_ctx s) ++ frame_paint (_emulator s)
    /\ List.length (frame_paint (_emulator s)) = (Z.to_nat (WIDTH * HEIGHT) + 2)%nat
    /\ (forall row col, 0 <= row < HEIGHT -> 0 <= col < WIDTH ->
        exists b,
          emu_memory (_emulator s)
            !! (N.to_nat (emu_gfx (_emulator s)) + Z.to_nat (getIndex row col))%nat
          = Some b
          /\ List.filter (paints_cell row col) (frame_paint (_emulator s))
             = [cell_rect (if b =? 0 then EMPTY_COLOR else FILL_COLOR) row col])
    /\ _emulator s' = _emulator s
    /\ emu_memory (_emulator s') = emu_memory (_emulator s).
Proof.
  intros Hfit. eexists. split; [exact (renderGfx_runs s Hfit) |].
  split; [reflexivity |]. split; [| split; [| by split]].
  - unfold frame_paint. rewrite !length_app.
    pose proof (length_passes FILL_COLOR EMPTY_COLOR
                  (fun r c => TypedArray.truthy (pixel (_emulator s) r c))) as Hlen.
    simpl List.length. lia.
  - intros row col Hrow Hcol.
    destruct (pixel_in_memory (_emulator s) row col Hfit Hrow Hcol) as (b & Hpx & Hmem).
    exists b. split; [exact Hmem |].
    unfold frame_paint. rewrite !List.filter_app, !filter_pass by assumption.
    rewrite Hpx. simpl. by destruct (b =? 0).
Qed.

(** C8, as the code has it.  The getter returns the parse of the attribute
    when that is a number other than zero, and 10 otherwise; what it returns
    is never zero nor NaN.  It is negative, not positive, exactly when the
    attribute parses to a negative number, which is when its text starts
    (after white space) with a minus sign followed by digits that do not
    denote zero.  A frame executes no tick exactly in that case: with a
    negative [ticksPerFrame] the [for] ends at once, and otherwise every
    frame that ends has called [tick] at least once. *)
Theorem ticksPerFrame_nonzero_default s :
  ticksPerFrame s
  = (if JS.ToBoolean (JS.parseInt (attributes s !! "ticks-per-frame") 10)
     then JS.parseInt (attributes s !! "ticks-per-frame") 10
     else JS.Fin 10)
  /\ JS.ToBoolean (ticksPerFrame s) = true
  /\ JS.lt (JS.Fin 0) (ticksPerFrame s)
     = negb (JS.lt (JS.parseInt (attributes s !! "ticks-per-frame") 10) (JS.Fin 0))
  /\ JS.lt (JS.parseInt (attributes s !! "ticks-per-frame") 10) (JS.Fin 0)
     = JS.is_minus (JS.TrimStart (JS.ToString (attributes s !! "ticks-per-frame")))
       && JS.ToBoolean (JS.parseInt (attributes s !! "ticks-per-frame") 10)
  /\ JS.lt (ticksPerFrame s) (JS.Fin 0)
     = JS.lt (JS.parseInt (attributes s !! "ticks-per-frame") 10) (JS.Fin 0)
  /\ (JS.lt (ticksPerFrame s) (JS.Fin 0) = true ->
      forall fuel, loop_ticks (S fuel) (JS.Fin 0) s = Ok s)
  /\ (forall fuel s', settles (loop fuel s) s' ->
      exists k,
        calls s' = calls s ++ replicate k call_tick ++ [call_gfx]
        /\ (k = 0%nat <-> JS.lt (ticksPerFrame s) (JS.Fin 0) = true)).
Proof.
  assert (Htruthy : JS.ToBoolean (ticksPerFrame s) = true).
  { unfold ticksPerFrame, JS.or_else.
    by destruct (JS.ToBoolean (JS.parseInt _ 10)) eqn:Hb. }
  split; [reflexivity |]. split; [exact Htruthy |].
  split; [| split; [apply parseInt_negative |]].
  - unfold ticksPerFrame, JS.or_else.
    destruct (JS.parseInt _ 10) as [| z | neg]; simpl; [reflexivity | | by destruct neg].
    destruct (Z.eqb_spec z 0) as [-> | Hz]; simpl; [reflexivity |].
    destruct (Z.ltb_spec 0 z), (Z.ltb_spec z 0); simpl; lia.
  - split; [| split].
    + unfold ticksPerFrame, JS.or_else.
      destruct (JS.parseInt _ 10) as [| z | neg]; simpl; [reflexivity | | reflexivity].
      by destruct (Z.eqb_spec z 0) as [-> | Hz].
    + intros Hneg fuel. cbn [loop_ticks].
      rewrite (truthy_sign _ Htruthy), Hneg. reflexivity.
    + intros fuel s' Hs.
      destruct (loop_settles_count fuel s s' Hs) as (k & Hc & _ & Hk).
      exists k. split; [exact Hc |].
      specialize (Hk 0 ltac:(lia)). rewrite (truthy_sign _ Htruthy) in Hk.
      destruct (JS.lt (ticksPerFrame s) (JS.Fin 0)); simpl in Hk; split; intros Hx.
      * reflexivity.
      * destruct k; [reflexivity |]. destruct Hk as [_ Hk].
        specialize (Hk ltac:(lia)). discriminate.
      * subst k. destruct Hk as [Hk _]. specialize (Hk eq_refl). lia.
      * discriminate.
Qed.

End DriverContract.

(* ====================================================================== *)
(** * The framebuffer the renderer reads                                    *)
(* ====================================================================== *)

Section FramebufferFacts.

Import Framebuffer.

Lemma cleared_well_formed : well_formed cleared.
Proof.
  split; [reflexivity |]. unfold cleared.
  apply Forall_replicate. by left.
Qed.

Lemma xor_pixel_well_formed row col bit st :
  well_formed (fst st) -> well_formed (fst (xor_pixel row col bit st)).
Proof.
  destruct st as [fb c]. intros [Hlen Hbits]. unfold xor_pixel.
  destruct (fb !! index row col) as [old |] eqn:Hold; simpl; [| by split].
  split; [by rewrite length_insert |].
  apply Forall_insert; [exact Hbits |].
  pose proof (Forall_lookup_1 _ _ _ _ Hbits Hold) as [-> | ->];
    destruct bit; simpl; auto.
Qed.

Lemma xor_row_well_formed vx row byte st :
  well_formed (fst st) -> well_formed (fst (xor_row vx row byte st)).
Proof.
  unfold xor_row. generalize (seqZ 0 8). intros js. revert st.
  induction js as [| j js IH]; intros st Hst; simpl; [exact Hst |].
  apply IH. by apply xor_pixel_well_formed.
Qed.

Lemma DRW_well_formed vx vy sprite fb :
  well_formed fb -> well_formed (fst (DRW vx vy sprite fb)).
Proof.
  intros Hfb. unfold DRW.
  assert (Hst : well_formed (fst (fb, false))) by exact Hfb.
  revert Hst. generalize (fb, false). generalize (imap (fun i b => (i, b)) sprite).
  intros rows. induction rows as [| [offset byte] rows IH]; intros st Hst; simpl;
    [exact Hst |].
  apply IH. by apply xor_row_well_formed.
Qed.

Lemma apply_well_formed fb op : well_formed fb -> well_formed (apply fb op).
Proof.
  destruct op as [| vx vy sprite]; simpl; intros Hfb.
  - apply cleared_well_formed.
  - by apply DRW_well_formed.
Qed.

Lemma after_well_formed ops : well_formed (after ops).
Proof.
  unfold after. generalize cleared_well_formed. generalize cleared.
  induction ops as [| op ops IH]; intros fb Hfb; simpl; [exact Hfb |].
  apply IH. by apply apply_well_formed.
Qed.

(** The renderer's index of a cell is the framebuffer's. *)
Lemma getIndex_is_index row col :
  0 <= row < HEIGHT -> 0 <= col < WIDTH ->
  Z.to_nat (getIndex row col) = index row col.
Proof.
  unfold getIndex, index, WIDTH, HEIGHT. intros Hrow Hcol.
  rewrite (Z.mod_small row 32), (Z.mod_small col 64) by lia. reflexivity.
Qed.

End FramebufferFacts.

Section FramebufferView.

Context {E : Type} `{!Emulator E}.

Import Framebuffer.

(** C6.  The view the renderer opens on the framebuffer, for an interpreter
    whose memory holds the framebuffer at the address [gfx()] returns,
    whatever has been drawn on it: [renderGfx] succeeds on a view of
    64 * 32 = 2048 bytes, the element it reads at [getIndex row col] is the
    byte of pixel (row, col) of the framebuffer, that byte is 0 or 1, and
    the square painted for cell (row, col) is white exactly when it is 1. *)
Theorem framebuffer_view_layout (s : Page E) (ops : list Op) (before rest : list Z) :
  emu_memory (_emulator s) = before ++ after ops ++ rest ->
  emu_gfx (_emulator s) = N.of_nat (List.length before) ->
  exists view s',
    TypedArray.new (emu_memory (_emulator s)) (emu_gfx (_emulator s))
      (Z.to_N (WIDTH * HEIGHT)) = Some view
    /\ TypedArray.length view = 2048%N
    /\ renderGfx s = Ok s'
    /\ drawn (_ctx s') = drawn (_ctx s) ++ frame_paint (_emulator s)
    /\ forall row col, 0 <= row < HEIGHT -> 0 <= col < WIDTH ->
         exists b,
           TypedArray.get (emu_memory (_emulator s)) view (getIndex row col) = Some b
           /\ after ops !! index row col = Some b
           /\ (b = 0 \/ b = 1)
           /\ List.filter (paints_cell row col) (frame_paint (_emulator s))
              = [cell_rect (if b =? 1 then FILL_COLOR else EMPTY_COLOR) row col].
Proof.
  intros Hmem Hptr.
  destruct (after_well_formed ops) as [Hlen Hbits].
  assert (Hfit : gfx_fits (_emulator s)).
  { unfold gfx_fits. rewrite Hmem, Hptr, !length_app, Hlen.
    unfold WIDTH, HEIGHT. lia. }
  exists (TypedArray.mkView (emu_gfx (_emulator s)) (Z.to_N (WIDTH * HEIGHT))).
  eexists. split.
  { unfold TypedArray.new.
    destruct (N.leb_spec (emu_gfx (_emulator s) + Z.to_N (WIDTH * HEIGHT))
                (N.of_nat (List.length (emu_memory (_emulator s)))));
      [reflexivity | unfold gfx_fits in Hfit; lia]. }
  split; [reflexivity |]. split; [exact (renderGfx_runs s Hfit) |].
  split; [reflexivity |].
  intros row col Hrow Hcol.
  destruct (pixel_in_memory (_emulator s) row col Hfit Hrow Hcol) as (b & Hpx & Hb).
  assert (Hfb : after ops !! index row col = Some b).
  { rewrite Hmem, Hptr, Nat2N.id, (getIndex_is_index row col Hrow Hcol) in Hb.
    assert (Hidx : (index row col < 2048)%nat).
    { unfold index, WIDTH, HEIGHT in *.
      rewrite (Z.mod_small row 32), (Z.mod_small col 64) by lia. lia. }
    rewrite lookup_app_r in Hb by lia.
    replace (List.length before + index row col - List.length before)%nat
      with (index row col) in Hb by lia.
    rewrite lookup_app_l in Hb by lia. exact Hb. }
  pose proof (Forall_lookup_1 _ _ _ _ Hbits Hfb) as Hbit.
  exists b. split; [exact Hpx |]. split; [exact Hfb |]. split; [exact Hbit |].
  unfold frame_paint. rewrite !List.filter_app, !filter_pass by assumption.
  rewrite Hpx. by destruct Hbit as [-> | ->].
Qed.

End FramebufferView.

Section FramebufferExamples.

Import Framebuffer.

Lemma framebuffer_view_layout_witness :
  exists b,
    after [op_DRW 62 31 [0xC0; 0xC0]] !! index 0 63 = Some b
    /\ (b = 0 \/ b = 1)
    /\ List.filter (paints_cell 0 63)
         (frame_paint (_emulator (with_emulator call_tick
                                    (fun _ => after [op_DRW 62 31 [0xC0; 0xC0]])
                                    example_page)))
       = [cell_rect (if b =? 1 then FILL_COLOR else EMPTY_COLOR) 0 63].
Proof.
  destruct (framebuffer_view_layout
              (with_emulator call_tick
                 (fun _ => after [op_DRW 62 31 [0xC0; 0xC0]]) example_page)
              [op_DRW 62 31 [0xC0; 0xC0]] [] [])
    as (view & s' & _ & _ & _ & _ & Hcells).
  - change (after [op_DRW 62 31 [0xC0; 0xC0]]
            = after [op_DRW 62 31 [0xC0; 0xC0]] ++ []).
    by rewrite app_nil_r.
  - reflexivity.
  - destruct (Hcells 0 63 ltac:(unfold HEIGHT; lia) ltac:(unfold WIDTH; lia))
      as (b & _ & Hfb & Hbit & Hpaint).
    exists b. by repeat split.
Defined.

Example framebuffer_wraps :
  after [op_DRW 62 31 [0xC0; 0xC0]] !! index 0 63 = Some 1
  /\ after [op_DRW 62 31 [0xC0; 0xC0]] !! index 31 62 = Some 1
  /\ after [op_DRW 62 31 [0xC0; 0xC0]; op_DRW 62 31 [0xC0; 0xC0]] = cleared.
Proof. vm_compute. by repeat split. Qed.

End FramebufferExamples.

(* ====================================================================== *)
(** * The key map and the pressed-key table                                 *)
(* ====================================================================== *)

Section KeyboardFacts.

Import Keyboard.

Lemma pretty_N_go_not_u x s s' :
  s <> String "u"%char s' -> pretty_N_go x s <> String "u"%char s'.
Proof.
  revert s. induction (N.lt_wf_0 x) as [x _ IH]; intros s Hs.
  destruct (decide (x = 0%N)) as [-> | Hx].
  - by rewrite pretty_N_go_0.
  - rewrite pretty_N_go_step by lia. apply IH.
    + apply N.div_lt; lia.
    + unfold pretty_N_char. by repeat case_match.
Qed.

(** A printed number is never the name [undefined]. *)
Lemma property_key_number k : property_key (Some k) <> property_key None.
Proof.
  simpl. unfold pretty, pretty_N. case_decide; [done |].
  by apply pretty_N_go_not_u.
Qed.

Lemma property_key_inj a b : property_key a = property_key b -> a = b.
Proof.
  destruct a as [x |], b as [y |]; intros Heq.
  - f_equal. by apply (inj pretty).
  - by destruct (property_key_number x).
  - by destruct (property_key_number y).
  - reflexivity.
Qed.

(** What one event does to the answer for key [k]. *)
Lemma is_key_pressed_dispatch k ev kb :
  is_key_pressed k (dispatch ev kb)
  = if decide (event_key ev = Some k) then is_keydown ev else is_key_pressed k kb.
Proof.
  unfold is_key_pressed.
  destruct ev as [e | e];
    cbn [dispatch handle_keydown handle_keyup pressed event_key is_keydown];
    rewrite lookup_insert;
    (destruct (decide (KEYS_MAP_get (keyCode e) = Some k)) as [Heq | Hne];
     [ rewrite Heq, decide_True by reflexivity; reflexivity
     | rewrite decide_False; [reflexivity |];
       intros Hk; apply Hne; by apply property_key_inj ]).
Qed.

Lemma run_snoc evs ev kb : run (evs ++ [ev]) kb = dispatch ev (run evs kb).
Proof. unfold run. by rewrite foldl_app. Qed.

Lemma last_event_for_snoc k evs ev :
  last_event_for k (evs ++ [ev])
  = if decide (event_key ev = Some k) then Some ev else last_event_for k evs.
Proof.
  unfold last_event_for. rewrite filter_app, filter_cons, filter_nil.
  destruct (decide (event_key ev = Some k)).
  - by rewrite last_snoc.
  - by rewrite app_nil_r.
Qed.

Lemma is_key_pressed_run evs kb k :
  is_key_pressed k (run evs (start_detection kb))
  = match last_event_for k evs with
    | Some ev => is_keydown ev
    | None => false
    end.
Proof.
  induction evs as [| ev evs IH] using rev_ind; [reflexivity |].
  rewrite run_snoc, is_key_pressed_dispatch, last_event_for_snoc.
  by destruct (decide (event_key ev = Some k)).
Qed.

(** C4, on the code.  No key code is mapped to logical key 0, so that key
    can never be reported pressed; the other fifteen logical keys each have
    a key code. *)
Theorem KEYS_MAP_misses_key_zero :
  (forall keyCode, KEYS_MAP_get keyCode <> Some 0%N)
  /\ (forall evs kb, is_key_pressed 0 (run evs (start_detection kb)) = false)
  /\ Forall (fun k => exists keyCode, KEYS_MAP_get keyCode = Some k)
       [1; 2; 3; 4; 5; 6; 7; 8; 9; 10; 11; 12; 13; 14; 15]%N.
Proof.
  assert (Hzero : forall keyCode, KEYS_MAP_get keyCode <> Some 0%N).
  { assert (Hall : map_Forall (fun _ v => v <> 0%N) KEYS_MAP).
    { apply map_Forall_to_list. vm_compute. repeat constructor; discriminate. }
    intros keyCode Hget. exact (Hall _ _ Hget eq_refl). }
  split; [exact Hzero |]. split.
  - intros evs kb. rewrite is_key_pressed_run. unfold last_event_for.
    replace (filter (fun ev => event_key ev = Some 0%N) evs) with (@nil KeyEvent);
      [reflexivity |].
    symmetry. induction evs as [| ev evs IH]; [reflexivity |].
    rewrite filter_cons, <- IH. rewrite decide_False; [reflexivity |].
    destruct ev; apply Hzero.
  - repeat constructor;
      [ exists 49%N | exists 50%N | exists 51%N | exists 81%N | exists 87%N
      | exists 69%N | exists 65%N | exists 83%N | exists 68%N | exists 90%N
      | exists 67%N | exists 52%N | exists 82%N | exists 70%N | exists 86%N ];
      vm_compute; reflexivity.
Qed.

(** C9.  After [start_detection], [is_key_pressed(k)] is [true] exactly
    when the most recent keydown or keyup whose code maps to [k] was a
    keydown; in particular it is [false] as long as no keydown mapping to
    [k] has come.  An event whose code is not in the key map changes the
    answer for no key. *)
Theorem is_key_pressed_tracks_last_event :
  (forall evs kb k,
     is_key_pressed k (run evs (start_detection kb))
     = match last_event_for k evs with
       | Some ev => is_keydown ev
       | None => false
       end)
  /\ (forall evs kb k,
        (forall ev, ev ∈ evs -> event_key ev = Some k -> is_keydown ev = false) ->
        is_key_pressed k (run evs (start_detection kb)) = false)
  /\ (forall ev kb k,
        event_key ev = None ->
        is_key_pressed k (dispatch ev kb) = is_key_pressed k kb).
Proof.
  split; [exact is_key_pressed_run |]. split.
  - intros evs kb k Hno. rewrite is_key_pressed_run.
    destruct (last_event_for k evs) as [ev |] eqn:Hlast; [| reflexivity].
    unfold last_event_for in Hlast.
    assert (Hin : ev ∈ filter (fun ev => event_key ev = Some k) evs).
    { apply last_Some in Hlast as [l ->]. apply elem_of_app. right.
      apply list_elem_of_here. }
    apply list_elem_of_filter in Hin as [Hk Hin]. by apply Hno.
  - intros ev kb k Hnone. rewrite is_key_pressed_dispatch.
    rewrite decide_False; [reflexivity |]. by rewrite Hnone.
Qed.

Lemma is_key_pressed_tracks_last_event_witness :
  event_key (keydown (mkKeyboardEvent 88)) = None
  /\ is_key_pressed 5 (dispatch (keydown (mkKeyboardEvent 88))
                         (run [keydown (mkKeyboardEvent 87)] new))
     = is_key_pressed 5 (run [keydown (mkKeyboardEvent 87)] new)
  /\ is_key_pressed 5 (run [keyup (mkKeyboardEvent 87)] (start_detection new)) = false.
Proof.
  destruct is_key_pressed_tracks_last_event as (_ & Huntil & Hunmapped).
  split; [reflexivity |]. split.
  - apply Hunmapped. reflexivity.
  - apply Huntil. intros ev Hin _.
    apply list_elem_of_singleton in Hin as ->. reflexivity.
Defined.

End KeyboardFacts.

(* ====================================================================== *)
(** * The tone generator                                                    *)
(* ====================================================================== *)

Section AudioFacts.

Import Audio.

Lemma start_when_active a : is_active a = true -> start a = a.
Proof. unfold start. by intros ->. Qed.

Lemma stop_when_inactive a : is_active a = false -> stop a = a.
Proof. unfold stop. by intros ->. Qed.

Lemma is_active_start a : is_active (start a) = true.
Proof.
  unfold start. destruct (is_active a) eqn:Ha; [exact Ha | reflexivity].
Qed.

Lemma is_active_stop a : is_active (stop a) = false.
Proof.
  unfold stop. destruct (is_active a) eqn:Ha; [reflexivity | exact Ha].
Qed.

Lemma audio_run_snoc cs c a : run (cs ++ [c]) a = call c (run cs a).
Proof. unfold run. by rewrite foldl_app. Qed.

Lemma is_active_run cs a :
  is_active (run cs a)
  = match last cs with
    | Some c => is_start c
    | None => is_active a
    end.
Proof.
  induction cs as [| c cs _] using rev_ind; [reflexivity |].
  rewrite audio_run_snoc, last_snoc.
  destruct c; [apply is_active_start | apply is_active_stop].
Qed.

Lemma silent_filter nodes :
  Forall (fun n => playing n = false) nodes ->
  filter (fun n => playing n = true) nodes = [].
Proof.
  induction 1 as [| n nodes Hn _ IH]; [reflexivity |].
  rewrite filter_cons, decide_False, IH; [reflexivity | congruence].
Qed.

Lemma consistent_sounding a :
  consistent a -> sounding a = if is_active a then 1%nat else 0%nat.
Proof.
  unfold consistent, sounding, is_active.
  destruct (o a) as [r |].
  - intros (older & -> & _ & Hsilent).
    rewrite filter_app, (silent_filter older Hsilent). reflexivity.
  - intros Hsilent. by rewrite silent_filter.
Qed.

Lemma consistent_start a : consistent a -> consistent (start a).
Proof.
  unfold start. destruct (is_active a) eqn:Hact; [done |].
  unfold is_active in Hact. destruct a as [nodes [r |]]; [discriminate |].
  unfold consistent. simpl. intros Hsilent.
  exists nodes. split; [| by split].
  replace (List.length nodes) with (List.length nodes + 0)%nat by lia.
  by rewrite !alter_app_r.
Qed.

Lemma consistent_stop a : consistent a -> consistent (stop a).
Proof.
  unfold stop. destruct (is_active a) eqn:Hact; [| done].
  unfold is_active in Hact. destruct a as [nodes [r |]]; [| discriminate].
  unfold consistent. simpl. intros (older & -> & -> & Hsilent).
  replace (List.length older) with (List.length older + 0)%nat by lia.
  rewrite alter_app_r. simpl.
  apply Forall_app. split; [exact Hsilent |]. by repeat constructor.
Qed.

Lemma consistent_run cs : consistent (run cs new).
Proof.
  induction cs as [| c cs IH] using rev_ind; [by constructor |].
  rewrite audio_run_snoc.
  destruct c; [by apply consistent_start | by apply consistent_stop].
Qed.

(** C10.  After any sequence of [start] and [stop] calls, [is_active] tells
    whether the last call was [start].  [start] on an active instance and
    [stop] on an inactive one change nothing, so each is idempotent; and
    from the constructor on there is one node sounding while active and
    none otherwise. *)
Theorem audio_active_iff_last_call_start :
  (forall cs a,
     is_active (run cs a)
     = match last cs with
       | Some c => is_start c
       | None => is_active a
       end)
  /\ (forall a, is_active a = true -> start a = a)
  /\ (forall a, is_active a = false -> stop a = a)
  /\ (forall a, start (start a) = start a)
  /\ (forall a, stop (stop a) = stop a)
  /\ (forall cs,
        sounding (run cs new) = if is_active (run cs new) then 1%nat else 0%nat).
Proof.
  split; [exact is_active_run |].
  split; [exact start_when_active |].
  split; [exact stop_when_inactive |].
  split; [intros a; apply start_when_active, is_active_start |].
  split; [intros a; apply stop_when_inactive, is_active_stop |].
  intros cs. apply consistent_sounding, consistent_run.
Qed.

Lemma audio_active_iff_last_call_start_witness :
  is_active (start new) = true
  /\ start (start new) = start new
  /\ List.length (ctx (run [call_start; call_start; call_stop; call_stop] new)) = 1%nat
  /\ is_active new = false
  /\ stop new = new.
Proof.
  destruct audio_active_iff_last_call_start as (_ & Hstart & Hstop & _).
  split; [reflexivity |]. split; [by apply Hstart |].
  split; [reflexivity |]. split; [reflexivity |]. by apply Hstop.
Defined.

End AudioFacts.

(* ====================================================================== *)
(** * The page as a whole                                                   *)
(* ====================================================================== *)

Section PageFacts.

Context {E : Type} `{!Emulator E}.
Implicit Types s : Page E.

Lemma started_set_started b s : started (set_started b s) = b.
Proof.
  unfold started, set_started, with_attributes. cbn [attributes].
  rewrite lookup_insert_eq. by destruct b.
Qed.

Lemma started_attributes s s' : attributes s' = attributes s -> started s' = started s.
Proof. unfold started. by intros ->. Qed.

(** [pause] touches nothing but the animation request and the attribute. *)
Lemma pause_rest s :
  calls (pause s) = calls s
  /\ _emulator (pause s) = _emulator s
  /\ keyboard (pause s) = keyboard s
  /\ file_readers (pause s) = file_readers s
  /\ _programLoaded (pause s) = _programLoaded s
  /\ _ctx (pause s) = _ctx s.
Proof.
  unfold pause. destruct (started s); [| by repeat split].
  destruct (_animationId s); by repeat split.
Qed.

(** After [pause] no frame is pending and the element is not started. *)
Lemma pause_stops s :
  frames_tracked s -> frame_requests (pause s) = [] /\ started (pause s) = false.
Proof.
  intros Htracked. unfold pause. destruct (started s) eqn:Hstarted.
  - split; [| apply started_set_started].
    destruct Htracked as [Hnone | (_ & id & Hone & Hid)].
    + destruct (_animationId s); simpl; by rewrite Hnone.
    + rewrite Hid. simpl. rewrite Hone, filter_cons, decide_False; [reflexivity |].
      intros Hne. by apply Hne.
  - split; [| exact Hstarted].
    destruct Htracked as [Hnone | (Hs & _)]; [exact Hnone | congruence].
Qed.

Lemma loop_returns fuel s s1 :
  loop fuel s = Ok s1 ->
  attributes s1 = attributes s
  /\ keyboard s1 = keyboard s
  /\ exists id, frame_requests s1 = frame_requests s ++ [id]
                /\ _animationId s1 = Some id.
Proof.
  intros Hloop.
  destruct (loop_settles fuel s s1) as (_ & _ & _ & Hkb & Ha & _ & _ & Hfr).
  { rewrite Hloop. reflexivity. }
  rewrite Hloop in Hfr. by repeat split.
Qed.

Lemma loop_throws fuel s e s1 :
  loop fuel s = Throw e s1 ->
  attributes s1 = attributes s
  /\ keyboard s1 = keyboard s
  /\ frame_requests s1 = frame_requests s.
Proof.
  intros Hloop.
  destruct (loop_settles fuel s s1) as (_ & _ & _ & Hkb & Ha & _ & _ & Hfr).
  { rewrite Hloop. reflexivity. }
  rewrite Hloop in Hfr. destruct Hfr as [Hfr _]. by repeat split.
Qed.

(** What [start] leaves behind on an element that is not started. *)
Lemma start_settles fuel s s' :
  started s = false -> frame_requests s = [] ->
  settles (start fuel s) s' ->
  keyboard s' = keyboard s /\ frames_tracked s'.
Proof.
  intros Hstarted Hnone Hs. unfold start in Hs.
  rewrite Hstarted in Hs. cbn [negb orb] in Hs.
  destruct (loop fuel s) as [s1 | e s1 |] eqn:Hloop; cbn [andThen settles] in Hs;
    [| | done]; subst s'.
  - destruct (loop_returns fuel s s1 Hloop) as (_ & Hkb & id & Hfr & Hid).
    split; [exact Hkb |]. right. split; [apply started_set_started |].
    exists id. simpl. by rewrite Hfr, Hnone.
  - destruct (loop_throws fuel s e s1 Hloop) as (_ & Hkb & Hfr).
    split; [exact Hkb |]. left. by rewrite Hfr.
Qed.

Lemma uploadProgram_settles detail s s' :
  frames_tracked s ->
  settles (uploadProgram detail s) s' ->
  keyboard s' = keyboard s
  /\ frame_requests s' = []
  /\ started s' = false
  /\ calls s' = calls s ++ [call_reset]
  /\ _emulator s' = emu_reset (_emulator s)
  /\ file_readers s' = file_readers s ++ match detail with Some f => [f] | None => [] end.
Proof.
  intros Htracked. unfold uploadProgram.
  set (s0 := ctx_clearRect _ _ _ _ (with_emulator call_reset emu_reset s)).
  assert (Htracked0 : frames_tracked s0) by exact Htracked.
  destruct (pause_stops s0 Htracked0) as [Hnone Hstopped].
  destruct (pause_rest s0) as (Hc & He & Hkb & Hf & _ & _).
  destruct detail as [file |]; cbn [settles]; intros ->; simpl;
    rewrite ?Hnone, ?Hc, ?He, ?Hkb, ?Hf, ?app_nil_r; by repeat split.
Qed.

(** What [onload] leaves behind, whether [load] returned or threw. *)
Lemma onload_settles result s s' :
  settles (uploadProgram_onload result s) s' ->
  calls s' = calls s ++ [call_load result]
  /\ _emulator s' = emu_load result (_emulator s)
  /\ _programLoaded s'
     = (if emu_load_fails result (_emulator s) then _programLoaded s else true)
  /\ attributes s' = attributes s
  /\ frame_requests s' = frame_requests s
  /\ _animationId s' = _animationId s
  /\ file_readers s' = file_readers s
  /\ keyboard s' = keyboard s
  /\ _ctx s' = _ctx s.
Proof.
  unfold uploadProgram_onload.
  destruct (emu_load_fails result (_emulator s)); cbn [settles]; intros ->;
    by repeat split.
Qed.

(** Every handler keeps the pending frames tied to the attribute. *)
Lemma frames_tracked_step s ev s' :
  frames_tracked s -> step s ev s' -> frames_tracked s'.
Proof.
  intros Htracked Hstep.
  destruct Hstep as [s fuel s' Hs | s files s' Hs | s id rest fuel s' Hreq Hs
                    | s file rest s' Hfile Hs | s k].
  - unfold toggle in Hs. destruct (started s) eqn:Hstarted.
    + simpl in Hs. subst s'. left. by apply pause_stops.
    + eapply start_settles; [exact Hstarted | | exact Hs].
      destruct Htracked as [Hnone | (Hst & _)]; [exact Hnone | congruence].
  - left. by destruct (uploadProgram_settles _ s s' Htracked Hs) as (_ & Hnone & _).
  - destruct Htracked as [Hnone | (Hstarted & id' & Hone & _)]; [congruence |].
    assert (rest = []) as -> by congruence.
    set (s0 := with_frame_requests (fun _ => []) (last_request s) s) in Hs.
    destruct (loop fuel s0) as [s1 | e s1 |] eqn:Hloop; cbn [settles] in Hs;
      [| | done]; subst s'.
    + destruct (loop_returns fuel s0 s1 Hloop) as (Ha & _ & idn & Hfr & Hid).
      right. split; [by rewrite (started_attributes s0 s1 Ha) |].
      exists idn. by split.
    + destruct (loop_throws fuel s0 e s1 Hloop) as (_ & _ & Hfr). by left.
  - destruct (onload_settles _ _ s' Hs) as (_ & _ & _ & Ha & Hfr & Hid & _).
    unfold frames_tracked. rewrite Hfr, Hid, (started_attributes _ s' Ha).
    exact Htracked.
  - exact Htracked.
Qed.

Lemma reachable_frames_tracked attrs s : reachable attrs s -> frames_tracked s.
Proof.
  induction 1 as [| s ev s' _ IH Hstep]; [by left |].
  exact (frames_tracked_step s ev s' IH Hstep).
Qed.

(** Only key events write the keyboard's table. *)
Lemma step_keyboard s ev s' :
  frames_tracked s -> step s ev s' ->
  keyboard s'
  = match ev with
    | ev_key k => Keyboard.dispatch k (keyboard s)
    | _ => keyboard s
    end.
Proof.
  intros Htracked Hstep.
  destruct Hstep as [s fuel s' Hs | s files s' Hs | s id rest fuel s' Hreq Hs
                    | s file rest s' Hfile Hs | s k].
  - unfold toggle in Hs. destruct (started s) eqn:Hstarted.
    + simpl in Hs. subst s'. by destruct (pause_rest s) as (_ & _ & Hkb & _).
    + eapply start_settles; [exact Hstarted | | exact Hs].
      destruct Htracked as [Hnone | (Hst & _)]; [exact Hnone | congruence].
  - by destruct (uploadProgram_settles _ s s' Htracked Hs) as (Hkb & _).
  - set (s0 := with_frame_requests (fun _ => rest) (last_request s) s) in Hs.
    destruct (loop fuel s0) as [s1 | e s1 |] eqn:Hloop; cbn [settles] in Hs;
      [| | done]; subst s'.
    + by destruct (loop_returns fuel s0 s1 Hloop) as (_ & Hkb & _).
    + by destruct (loop_throws fuel s0 e s1 Hloop) as (_ & Hkb & _).
  - by destruct (onload_settles _ _ s' Hs) as (_ & _ & _ & _ & _ & _ & _ & Hkb & _).
  - reflexivity.
Qed.

(** C3, as the code has it.  In the running page a keydown or keyup makes
    no call on the interpreter: the keyboard adapter records it in its own
    [pressed] table, under the logical key its code maps to, where
    [is_key_pressed] then reports it.  No other event of the page writes
    that table. *)
Theorem key_events_only_write_pressed_table attrs s ev s' :
  reachable attrs s -> step s ev s' ->
  match ev with
  | ev_key k =>
      calls s' = calls s
      /\ _emulator s' = _emulator s
      /\ keyboard s' = Keyboard.dispatch k (keyboard s)
      /\ (forall key, Keyboard.event_key k = Some key ->
          Keyboard.is_key_pressed key (keyboard s') = Keyboard.is_keydown k)
  | _ => keyboard s' = keyboard s
  end.
Proof.
  intros Hreach Hstep.
  pose proof (step_keyboard s ev s' (reachable_frames_tracked attrs s Hreach) Hstep)
    as Hkb.
  destruct ev as [| files | | | k]; try exact Hkb.
  inversion Hstep; subst. cbn [calls _emulator keyboard with_keyboard].
  repeat split. intros key Hkey.
  rewrite is_key_pressed_dispatch. by rewrite decide_True.
Qed.


End PageFacts.

(* ====================================================================== *)
(** * The contract on a concrete page                                       *)
(* ====================================================================== *)

Lemma example_page_fits k : gfx_fits (_emulator (ticked k example_page)).
Proof.
  rewrite ticked_emulator. unfold gfx_fits.
  assert (Hall : Framebuffer.well_formed
                   (Nat.iter k emu_tick (_emulator example_page))).
  { induction k as [| k IH]; [apply cleared_well_formed |].
    simpl Nat.iter. by apply DRW_well_formed. }
  destruct Hall as [Hlen _].
  change (emu_memory (Nat.iter k emu_tick (_emulator example_page)))
    with (Nat.iter k emu_tick (_emulator example_page)).
  rewrite Hlen. vm_compute. discriminate.
Qed.

Lemma loop_ticks_then_one_redraw_witness :
  ticksPerFrame example_page = JS.Fin 10
  /\ exists s',
       (forall fuel, (10 < fuel)%nat -> loop fuel example_page = Ok s')
       /\ calls s' = calls example_page ++ replicate 10 call_tick ++ [call_gfx]
       /\ _emulator s' = Nat.iter 10 emu_tick (_emulator example_page)
       /\ drawn (_ctx s') = drawn (_ctx example_page) ++ frame_paint (_emulator s')
       /\ frame_requests s' = frame_requests example_page
                              ++ [(last_request example_page + 1)%N]
       /\ _animationId s' = Some (last_request example_page + 1)%N.
Proof.
  split; [reflexivity |].
  apply (loop_ticks_then_one_redraw example_page 10);
    [reflexivity | lia | unfold gfx_fits; vm_compute; discriminate].
Defined.

(** C2 on a frame.  The calls of one frame of the example page are ten
    [tick]s and one [gfx]: the frame has not invoked [decrement_timers]. *)
Lemma loop_frame_without_decrement_timers :
  exists s',
    loop 11 example_page = Ok s'
    /\ calls s' = call_new :: replicate 10 call_tick ++ [call_gfx]
    /\ ~ In call_decrement_timers (calls s').
Proof.
  pose proof (loop_runs example_page 10 11 eq_refl ltac:(lia)
                (example_page_fits _) ltac:(lia)) as Hloop.
  cbv zeta in Hloop. eexists. split; [exact Hloop |].
  cbn [calls with_animationId with_frame_requests append_drawn with_ctx
       ctx_set_fillStyle with_emulator].
  rewrite ticked_calls. split; [reflexivity |].
  simpl. intuition discriminate.
Qed.

Lemma loop_calls_only_tick_and_gfx_witness :
  exists s',
    settles (loop 11 example_page) s'
    /\ exists k,
         calls s' = calls example_page ++ replicate k call_tick ++ [call_gfx]
         /\ k = Z.to_nat 10
         /\ ~ In call_decrement_timers (replicate k call_tick ++ [call_gfx])
         /\ _emulator s' = Nat.iter k emu_tick (_emulator example_page).
Proof.
  pose proof (loop_runs example_page 10 11 eq_refl ltac:(lia)
                (example_page_fits _) ltac:(lia)) as Hloop.
  cbv zeta in Hloop. eexists. split.
  - rewrite Hloop. reflexivity.
  - destruct (loop_calls_only_tick_and_gfx 11 example_page _
                ltac:(rewrite Hloop; reflexivity))
      as (k & Hcalls & _ & Hcount & Hnone & Hemu).
    exists k. split; [exact Hcalls |]. split; [exact (Hcount 10 eq_refl) |].
    by split.
Defined.

Lemma ticksPerFrame_nonzero_default_witness :
  JS.lt (ticksPerFrame example_page_negative) (JS.Fin 0) = true
  /\ loop_ticks 1 (JS.Fin 0) example_page_negative = Ok example_page_negative.
Proof.
  split; [reflexivity |].
  destruct (ticksPerFrame_nonzero_default example_page_negative)
    as (_ & _ & _ & _ & _ & Hzero & _).
  exact (Hzero eq_refl 0%nat).
Defined.

Lemma renderGfx_paints_every_cell_once_witness :
  gfx_fits (_emulator example_page)
  /\ exists s',
       renderGfx example_page = Ok s'
       /\ drawn (_ctx s') = drawn (_ctx example_page) ++ frame_paint (_emulator example_page)
       /\ List.length (frame_paint (_emulator example_page))
          = (Z.to_nat (WIDTH * HEIGHT) + 2)%nat
       /\ (forall row col, 0 <= row < HEIGHT -> 0 <= col < WIDTH ->
           exists b,
             emu_memory (_emulator example_page)
               !! (N.to_nat (emu_gfx (_emulator example_page))
                   + Z.to_nat (getIndex row col))%nat
             = Some b
             /\ List.filter (paints_cell row col) (frame_paint (_emulator example_page))
                = [cell_rect (if b =? 0 then EMPTY_COLOR else FILL_COLOR) row col])
       /\ _emulator s' = _emulator example_page
       /\ emu_memory (_emulator s') = emu_memory (_emulator example_page).
Proof.
  assert (Hfit : gfx_fits (_emulator example_page))
    by (unfold gfx_fits; vm_compute; discriminate).
  split; [exact Hfit |].
  apply (renderGfx_paints_every_cell_once example_page), Hfit.
Defined.

(** C8 on an attribute.  With ticks-per-frame set to -5 the getter returns
    -5, which is not positive, and the frame executes no tick at all. *)
Lemma ticksPerFrame_negative_attribute :
  ticksPerFrame example_page_negative = JS.Fin (-5)
  /\ JS.lt (JS.Fin 0) (ticksPerFrame example_page_negative) = false
  /\ exists s',
       loop 1 example_page_negative = Ok s'
       /\ calls s' = [call_new; call_gfx].
Proof.
  split; [reflexivity |]. split; [reflexivity |].
  pose proof (loop_runs example_page_negative (-5) 1 eq_refl ltac:(lia)
                (example_page_fits 0) ltac:(lia)) as Hloop.
  cbv zeta in Hloop. eexists. split; [exact Hloop | reflexivity].
Qed.

(** C3 on an event.  Pressing the key with code 49 on the example page
    leaves logical key 1 reported pressed, and the interpreter has been
    called by nothing but the constructor: there was no [set_key]. *)
Lemma keydown_makes_no_set_key_call :
  exists s',
    step example_page (ev_key (Keyboard.keydown (Keyboard.mkKeyboardEvent 49))) s'
    /\ Keyboard.is_key_pressed 1 (keyboard s') = true
    /\ calls s' = [call_new]
    /\ forall index pressed, ~ In (call_set_key index pressed) (calls s').
Proof.
  eexists. split; [apply step_key |]. split; [reflexivity |].
  split; [reflexivity |].
  intros index pressed [Hin | []]. discriminate.
Qed.

Lemma key_events_only_write_pressed_table_witness :
  reachable ∅ example_page
  /\ step example_page (ev_key (Keyboard.keydown (Keyboard.mkKeyboardEvent 49)))
       (with_keyboard
          (Keyboard.dispatch (Keyboard.keydown (Keyboard.mkKeyboardEvent 49)))
          example_page)
  /\ calls (with_keyboard
              (Keyboard.dispatch (Keyboard.keydown (Keyboard.mkKeyboardEvent 49)))
              example_page)
     = calls example_page.
Proof.
  split; [apply reachable_init |]. split; [apply step_key |].
  exact (proj1 (key_events_only_write_pressed_table ∅ example_page
                  (ev_key (Keyboard.keydown (Keyboard.mkKeyboardEvent 49))) _
                  (reachable_init ∅) (step_key _ _))).
Defined.



(* ====================================================================== *)
(** * Printing a number and parsing it back                                 *)
(* ====================================================================== *)

Section PrintParse.

Lemma str_String c s : JS.str (String c s) = N_of_ascii c :: JS.str s.
Proof. reflexivity. Qed.

Lemma digit_value_pretty_char d :
  (d < 10)%N -> JS.digit_value (N_of_ascii (pretty_N_char d)) = Some d.
Proof.
  intros Hd.
  assert (d = 0 \/ d = 1 \/ d = 2 \/ d = 3 \/ d = 4 \/ d = 5 \/ d = 6 \/ d = 7
          \/ d = 8 \/ d = 9)%N as Hcases by lia.
  repeat (destruct Hcases as [-> | Hcases]; [reflexivity |]).
  subst d. reflexivity.
Qed.

Lemma pretty_char_plain d :
  (d < 10)%N ->
  JS.isWhiteSpace (N_of_ascii (pretty_N_char d)) = false
  /\ (N_of_ascii (pretty_N_char d) =? 0x2D)%N = false
  /\ (N_of_ascii (pretty_N_char d) =? 0x2B)%N = false.
Proof.
  intros Hd.
  assert (d = 0 \/ d = 1 \/ d = 2 \/ d = 3 \/ d = 4 \/ d = 5 \/ d = 6 \/ d = 7
          \/ d = 8 \/ d = 9)%N as Hcases by lia.
  repeat (destruct Hcases as [-> | Hcases]; [by repeat split |]).
  subst d. by repeat split.
Qed.

(** Reading the digits printed for [x] continues the number read so far. *)
Lemma parse_pretty_N_go x : forall s,
  exists k, forall acc,
    fold_left (fun acc d => (acc * 10 + d)%N)
      (JS.radix_digits 10 (JS.str (pretty_N_go x s))) acc
    = fold_left (fun acc d => (acc * 10 + d)%N)
        (JS.radix_digits 10 (JS.str s)) (acc * 10 ^ k + x)%N.
Proof.
  induction (N.lt_wf_0 x) as [x _ IH]; intros s.
  destruct (decide (x = 0%N)) as [-> | Hx].
  - exists 0%N. intros acc. rewrite pretty_N_go_0. f_equal.
    rewrite N.pow_0_r. lia.
  - rewrite pretty_N_go_step by lia.
    destruct (IH (x `div` 10)%N ltac:(apply N.div_lt; lia)
                (String (pretty_N_char (x `mod` 10)) s)) as [k Hk].
    exists (k + 1)%N. intros acc. rewrite Hk, str_String.
    cbn [JS.radix_digits].
    rewrite digit_value_pretty_char by (apply N.mod_lt; lia).
    destruct (N.ltb_spec (x `mod` 10) 10) as [_ | Hbad];
      [| pose proof (N.mod_lt x 10); lia].
    cbn [fold_left]. f_equal.
    rewrite N.pow_add_r. pose proof (N.div_mod x 10). lia.
Qed.

Lemma pretty_N_go_head x : forall s,
  (0 < x)%N ->
  exists d rest, (d < 10)%N /\ pretty_N_go x s = String (pretty_N_char d) rest.
Proof.
  induction (N.lt_wf_0 x) as [x _ IH]; intros s Hx.
  rewrite pretty_N_go_step by lia.
  destruct (decide (x `div` 10 = 0)%N) as [Hzero | Hpos].
  - rewrite Hzero, pretty_N_go_0. exists (x `mod` 10)%N, s.
    split; [apply N.mod_lt; lia | reflexivity].
  - apply IH; [apply N.div_lt; lia | by apply N.neq_0_lt_0].
Qed.

Lemma pretty_N_head (x : N) :
  exists d rest, (d < 10)%N /\ pretty x = String (pretty_N_char d) rest.
Proof.
  unfold pretty, pretty_N. case_decide as Hx.
  - exists 0%N, EmptyString. by split.
  - apply pretty_N_go_head. lia.
Qed.

Lemma digits_of_pretty (x : N) :
  JS.digits_value 10 (JS.radix_digits 10 (JS.str (pretty x))) = x
  /\ JS.radix_digits 10 (JS.str (pretty x)) <> [].
Proof.
  assert (Hvalue : JS.digits_value 10 (JS.radix_digits 10 (JS.str (pretty x))) = x).
  { unfold pretty, pretty_N. case_decide as Hx; [by subst |].
    unfold JS.digits_value. destruct (parse_pretty_N_go x EmptyString) as [k Hk].
    rewrite Hk. simpl. lia. }
  split; [exact Hvalue |].
  destruct (pretty_N_head x) as (d & rest & Hd & ->).
  rewrite str_String. cbn [JS.radix_digits].
  rewrite digit_value_pretty_char by exact Hd.
  destruct (N.ltb_spec d 10); [discriminate | lia].
Qed.

(** [parseInt] reads back the integer that [Number_toString] printed. *)
Lemma parseInt_Number_toString (z : Z) :
  JS.parseInt (Some (Number_toString z)) 10 = JS.number_of_Z z.
Proof.
  assert (Hnat : forall x : N,
            JS.parseInt (Some (JS.str (pretty x))) 10 = JS.number_of_Z (Z.of_N x)).
  { intros x. destruct (digits_of_pretty x) as [Hvalue Hsome].
    destruct (pretty_N_head x) as (d & rest & Hd & Hhead).
    destruct (pretty_char_plain d Hd) as (Hws & Hminus & Hplus).
    unfold JS.parseInt. cbn [JS.ToString].
    change (negb (10 =? 0) && ((10 <? 2) || (36 <? 10))) with false. cbv iota.
    change ((10 =? 0) || (10 =? 16)) with false.
    change (false && _) with false. cbv iota zeta.
    change (if 10 =? 0 then 10 else 10) with 10.
    assert (Htrim : JS.TrimStart (JS.str (pretty x)) = JS.str (pretty x)).
    { rewrite Hhead, str_String. cbn [JS.TrimStart]. by rewrite Hws. }
    rewrite Htrim.
    assert (Hsign : JS.strip_sign (JS.str (pretty x)) = JS.str (pretty x)
                    /\ JS.is_minus (JS.str (pretty x)) = false).
    { rewrite Hhead, str_String. cbn [JS.strip_sign JS.is_minus].
      by rewrite Hminus, Hplus. }
    destruct Hsign as [-> ->].
    change (Z.to_N 10) with 10%N.
    destruct (JS.radix_digits 10 (JS.str (pretty x))) as [| d0 ds] eqn:Hds;
      [done |].
    by rewrite Hvalue. }
  destruct z as [| p | p].
  - exact (Hnat 0%N).
  - exact (Hnat (Npos p)).
  - specialize (Hnat (Npos p)).
    destruct (digits_of_pretty (Npos p)) as [Hvalue Hsome].
    unfold Number_toString, pretty, pretty_Z.
    change (JS.str ("-" +:+ pretty p))
      with (0x2D%N :: JS.str (pretty (Npos p))).
    unfold JS.parseInt. cbn [JS.ToString JS.TrimStart].
    change (JS.isWhiteSpace 45) with false. cbv iota.
    cbn [JS.is_minus JS.strip_sign].
    change (45 =? 45)%N with true.
    change ((45 =? 43)%N || true) with true. cbv iota.
    change (negb (10 =? 0) && ((10 <? 2) || (36 <? 10))) with false. cbv iota.
    change ((10 =? 0) || (10 =? 16)) with false.
    change (false && _) with false. cbv iota zeta.
    change (if 10 =? 0 then 10 else 10) with 10.
    change (Z.to_N 10) with 10%N.
    destruct (JS.radix_digits 10 (JS.str (pretty (Npos p)))) as [| d0 ds] eqn:Hds;
      [done |].
    rewrite Hvalue. reflexivity.
Qed.

Lemma number_of_Z_safe (z : Z) :
  - 2 ^ 53 <= z <= 2 ^ 53 -> JS.number_of_Z z = JS.Fin z.
Proof.
  intros Hz. unfold JS.number_of_Z.
  rewrite round_magnitude_exact.
  - f_equal. rewrite N2Z.inj_abs_N. nia.
  - apply N2Z.inj_le. rewrite N2Z.inj_abs_N, N2Z.inj_pow. simpl Z.of_N. lia.
Qed.

End PrintParse.

(* ====================================================================== *)
(** * Further properties of the element                                     *)
(* ====================================================================== *)

Section ElementProperties.

Context {E : Type} `{!Emulator E}.
Implicit Types s : Page E.

(** X1.  Setting [ticksPerFrame] to an integer the counter can hold and
    reading it back gives that integer, except that zero reads back as the
    default 10. *)
Theorem ticksPerFrame_set_then_get s z :
  - 2 ^ 53 <= z <= 2 ^ 53 ->
  ticksPerFrame (set_ticksPerFrame z s) = if z =? 0 then JS.Fin 10 else JS.Fin z.
Proof.
  intros Hz. unfold ticksPerFrame, set_ticksPerFrame, with_attributes.
  cbn [attributes]. rewrite lookup_insert_eq, parseInt_Number_toString.
  rewrite (number_of_Z_safe z Hz). unfold JS.or_else, JS.ToBoolean.
  by destruct (z =? 0).
Qed.

(** X2.  The [started] setter and getter agree, and the two attributes do
    not disturb each other. *)
Theorem started_set_then_get s b z :
  started (set_started b s) = b
  /\ ticksPerFrame (set_started b s) = ticksPerFrame s
  /\ started (set_ticksPerFrame z s) = started s.
Proof.
  split; [apply started_set_started |]. split.
  - unfold ticksPerFrame, set_started, with_attributes. cbn [attributes].
    by rewrite lookup_insert_ne.
  - unfold started, set_ticksPerFrame, with_attributes. cbn [attributes].
    by rewrite lookup_insert_ne.
Qed.

(** X3.  [pause] is idempotent; it always leaves the element not started,
    and it never touches the interpreter or the canvas. *)
Theorem pause_idempotent s :
  pause (pause s) = pause s
  /\ started (pause s) = false
  /\ calls (pause s) = calls s
  /\ _emulator (pause s) = _emulator s
  /\ _ctx (pause s) = _ctx s.
Proof.
  assert (Hstopped : started (pause s) = false).
  { unfold pause. destruct (started s) eqn:Hs; [apply started_set_started | exact Hs]. }
  destruct (pause_rest s) as (Hc & He & _ & _ & _ & Hctx).
  split; [| by repeat split].
  unfold pause at 1. by rewrite Hstopped.
Qed.

(** X4.  Whatever the user clicks, selects or presses, at most one
    animation frame is ever requested at a time, none while the element is
    not started, and the element remembers the handle of the pending one. *)
Theorem at_most_one_frame_pending attrs s :
  reachable attrs s ->
  (List.length (frame_requests s) <= 1)%nat
  /\ (started s = false -> frame_requests s = [])
  /\ (forall id, In id (frame_requests s) -> _animationId s = Some id).
Proof.
  intros Hreach.
  destruct (reachable_frames_tracked attrs s Hreach)
    as [Hnone | (Hstarted & id & Hone & Hid)].
  - rewrite Hnone. repeat split; [simpl; lia | intros id []].
  - rewrite Hone. split; [simpl; lia |]. split; [congruence |].
    intros id' [<- | []]. exact Hid.
Qed.

(** X5.  When the window at [gfx()] does not fit in the memory, the frame
    ends in a RangeError after its ticks and the [gfx] call: nothing is
    drawn and no further frame is requested, so the loop stops there. *)
Theorem loop_throws_when_window_outside s n :
  ticksPerFrame s = JS.Fin n -> n <= 2 ^ 53 ->
  ~ gfx_fits (_emulator (ticked (Z.to_nat n) s)) ->
  exists s',
    (forall fuel, (Z.to_nat n < fuel)%nat -> loop fuel s = Throw RangeError s')
    /\ calls s' = calls s ++ replicate (Z.to_nat n) call_tick ++ [call_gfx]
    /\ _ctx s' = _ctx s
    /\ frame_requests s' = frame_requests s
    /\ _animationId s' = _animationId s
    /\ attributes s' = attributes s.
Proof.
  intros Hn Hle Hfit.
  exists (with_emulator call_gfx id (ticked (Z.to_nat n) s)). split.
  { intros fuel Hfuel. unfold loop.
    rewrite (loop_ticks_runs n (Z.to_nat n) 0 s fuel Hn Hle) by lia.
    cbn [andThen]. by rewrite (renderGfx_throws _ Hfit). }
  destruct (ticked_rest (Z.to_nat n) s) as (Ha & _ & Hid & Hctx & Hfr & _ & _ & _).
  cbn [calls _ctx frame_requests _animationId attributes with_emulator].
  rewrite ticked_calls, <- app_assoc. by repeat split.
Qed.

(** X6.  A bound above 2^53, or an infinite one, is never reached by the
    counter of the [for]: the frame never ends, whatever fuel it is given. *)
Theorem loop_never_returns_beyond_2_53 s :
  JS.lt (JS.Fin (2 ^ 53)) (ticksPerFrame s) = true ->
  forall fuel, loop fuel s = OutOfFuel.
Proof.
  intros Hbig fuel. unfold loop.
  by rewrite (loop_ticks_stalls fuel 0 s Hbig) by lia.
Qed.

(** X15.  [start] on an element that is already started: without a loaded
    program it does nothing; with one it runs another frame and queues a
    further request beside the ones already pending. *)
Theorem start_on_started_element s n :
  started s = true ->
  (_programLoaded s = false -> forall fuel, start fuel s = Ok s)
  /\ (_programLoaded s = true ->
      ticksPerFrame s = JS.Fin n -> n <= 2 ^ 53 ->
      gfx_fits (_emulator (ticked (Z.to_nat n) s)) ->
      exists s',
        (forall fuel, (Z.to_nat n < fuel)%nat -> start fuel s = Ok s')
        /\ frame_requests s' = frame_requests s ++ [(last_request s + 1)%N]
        /\ started s' = true).
Proof.
  intros Hstarted. split.
  - intros Hnone fuel. unfold start. by rewrite Hstarted, Hnone.
  - intros Hloaded Hn Hle Hfit. eexists. split.
    { intros fuel Hfuel. unfold start. rewrite Hstarted, Hloaded. cbn [negb orb].
      rewrite (loop_runs s n fuel Hn Hle Hfit Hfuel). cbn [andThen]. reflexivity. }
    destruct (ticked_rest (Z.to_nat n) s) as (_ & _ & _ & _ & Hfr & _ & _ & _).
    split; [simpl; by rewrite Hfr | apply started_set_started].
Qed.

End ElementProperties.

(* ====================================================================== *)
(** * Further properties of the keyboard and the tone generator             *)
(* ====================================================================== *)

Section KeyboardProperties.

Import Keyboard.

Lemma KEYS_MAP_entries name k :
  KEYS_MAP !! name = Some k ->
  (name, k) ∈ [ ("49", 1); ("50", 2); ("51", 3); ("81", 4); ("87", 5); ("69", 6);
                ("65", 7); ("83", 8); ("68", 9); ("90", 10); ("67", 11);
                ("52", 12); ("82", 13); ("70", 14); ("86", 15) ]%N.
Proof.
  unfold KEYS_MAP. intros Hget.
  by apply elem_of_list_to_map_2 in Hget.
Qed.

(** X7.  Only the fifteen mapped keys can ever be reported pressed. *)
Theorem is_key_pressed_only_mapped_keys evs kb k :
  is_key_pressed k (run evs (start_detection kb)) = true -> (1 <= k <= 15)%N.
Proof.
  rewrite is_key_pressed_run.
  destruct (last_event_for k evs) as [ev |] eqn:Hlast; [| discriminate].
  intros _. unfold last_event_for in Hlast.
  assert (Hin : ev ∈ filter (fun ev => event_key ev = Some k) evs).
  { apply last_Some in Hlast as [l ->]. apply elem_of_app. right.
    apply list_elem_of_here. }
  apply list_elem_of_filter in Hin as [Hk _].
  assert (Hget : exists name, KEYS_MAP !! name = Some k).
  { destruct ev as [e | e]; by eexists. }
  destruct Hget as [name Hget]. apply KEYS_MAP_entries in Hget.
  repeat (apply elem_of_cons in Hget as [[= _ ->] | Hget]; [lia |]).
  by apply elem_of_nil in Hget.
Qed.

(** X8.  The key map is one to one: no two key codes stand for the same
    logical key. *)
Theorem KEYS_MAP_one_to_one keyCode1 keyCode2 k :
  KEYS_MAP_get keyCode1 = Some k -> KEYS_MAP_get keyCode2 = Some k ->
  keyCode1 = keyCode2.
Proof.
  unfold KEYS_MAP_get. intros H1 H2.
  apply (inj pretty).
  change (property_key (Some keyCode1)) with (pretty keyCode1) in H1.
  change (property_key (Some keyCode2)) with (pretty keyCode2) in H2.
  apply KEYS_MAP_entries in H1. apply KEYS_MAP_entries in H2.
  generalize dependent (pretty keyCode2). generalize dependent (pretty keyCode1).
  intros name1 H1 name2 H2.
  repeat (apply elem_of_cons in H1 as [Heq1 | H1];
          [ simplify_eq;
            repeat (apply elem_of_cons in H2 as [Heq2 | H2]; [by simplify_eq |]);
            by apply elem_of_nil in H2 |]).
  by apply elem_of_nil in H1.
Qed.

(** X9.  An event about one key leaves what is reported for every other
    key as it was. *)
Theorem key_events_leave_other_keys ev kb k :
  event_key ev <> Some k ->
  is_key_pressed k (dispatch ev kb) = is_key_pressed k kb.
Proof.
  intros Hother. rewrite is_key_pressed_dispatch. by rewrite decide_False.
Qed.

End KeyboardProperties.

Section AudioProperties.

Import Audio.

Lemma nodes_wired_run cs :
  Forall (fun n => osc_type n = "sine" /\ connected n = true) (ctx (run cs new)).
Proof.
  induction cs as [| c cs IH] using rev_ind; [by constructor |].
  rewrite audio_run_snoc. pose proof (consistent_run cs) as Hcons.
  destruct c; simpl.
  - unfold start. destruct (is_active (run cs new)) eqn:Hact; [exact IH |].
    unfold is_active in Hact. destruct (run cs new) as [nodes [r |]]; [discriminate |].
    simpl in *.
    replace (List.length nodes) with (List.length nodes + 0)%nat by lia.
    rewrite !alter_app_r. simpl.
    apply Forall_app. split; [exact IH | by repeat constructor].
  - unfold stop. destruct (is_active (run cs new)) eqn:Hact; [| exact IH].
    unfold is_active in Hact. destruct (run cs new) as [nodes [r |]]; [| discriminate].
    simpl in *. apply Forall_alter; [exact IH |].
    intros n _ [Htype Hconn]. by split.
Qed.

(** X10.  Oscillators are created one per activation and never removed: a
    [start] that finds the instance inactive adds one node, every other
    call adds none, and from the constructor on every node is a connected
    sine oscillator. *)
Theorem audio_creates_one_node_per_activation :
  (forall a, List.length (ctx (start a))
             = (List.length (ctx a) + if is_active a then 0 else 1)%nat)
  /\ (forall a, List.length (ctx (stop a)) = List.length (ctx a))
  /\ (forall cs,
        Forall (fun n => osc_type n = "sine" /\ connected n = true)
          (ctx (run cs new))).
Proof.
  split; [| split; [| exact nodes_wired_run]].
  - intros a. unfold start. destruct (is_active a); simpl; [lia |].
    by rewrite !length_alter, length_app.
  - intros a. unfold stop. destruct (is_active a); [| reflexivity].
    destruct (o a); simpl; [by rewrite length_alter | reflexivity].
Qed.

End AudioProperties.

(* ====================================================================== *)
(** * Further properties of the page                                        *)
(* ====================================================================== *)

Section PageProperties.

Context {E : Type} `{!Emulator E}.
Implicit Types s : Page E.

Lemma in_pass op style skip :
  In op (pass style skip) ->
  exists row col,
    0 <= row < HEIGHT /\ 0 <= col < WIDTH /\ op = cell_rect style row col.
Proof.
  unfold pass. intros Hin.
  apply in_flat_map in Hin as (row & Hrow & Hin).
  apply in_flat_map in Hin as (col & Hcol & Hin).
  apply list_elem_of_In, elem_of_seqZ in Hrow.
  apply list_elem_of_In, elem_of_seqZ in Hcol.
  exists row, col. destruct (skip row col); [destruct Hin |].
  destruct Hin as [<- | []]. repeat split; lia.
Qed.

(** X11.  Every square a frame fills lies inside the canvas the
    constructor sized, and the squares of two different cells share no
    pixel. *)
Theorem frame_squares_inside_canvas_and_apart (e : E) attrs :
  Forall (inside_canvas (canvas_width (_ctx (constructor (E := E) attrs)))
            (canvas_height (_ctx (constructor (E := E) attrs))))
    (frame_paint e)
  /\ (forall style style' row col row' col',
        0 <= row < HEIGHT -> 0 <= col < WIDTH ->
        0 <= row' < HEIGHT -> 0 <= col' < WIDTH ->
        row <> row' \/ col <> col' ->
        disjoint_rects (cell_rect style row col) (cell_rect style' row' col')).
Proof.
  split.
  - apply Forall_forall. intros op Hin. apply list_elem_of_In in Hin.
    unfold frame_paint in Hin. rewrite !in_app_iff in Hin.
    destruct Hin as [Hin | [Hin | [Hin | Hin]]].
    + by destruct Hin as [<- | []].
    + apply in_pass in Hin as (row & col & Hrow & Hcol & ->).
      unfold inside_canvas, cell_rect in *. simpl.
      unfold WIDTH, HEIGHT, SCALE in *. lia.
    + apply in_pass in Hin as (row & col & Hrow & Hcol & ->).
      unfold inside_canvas, cell_rect in *. simpl.
      unfold WIDTH, HEIGHT, SCALE in *. lia.
    + by destruct Hin as [<- | []].
  - intros style style' row col row' col' Hrow Hcol Hrow' Hcol' Hne.
    unfold disjoint_rects, cell_rect, SCALE. lia.
Qed.


(** What each event adds to the log of calls, and what it does to the
    loaded flag and to the reads in flight. *)
Lemma step_calls s ev s' :
  step s ev s' ->
  exists new,
    calls s' = calls s ++ new
    /\ match ev with
       | ev_file_selected files =>
           new = [call_reset]
           /\ _programLoaded s' = _programLoaded s
           /\ file_readers s'
              = file_readers s ++ match handleFileSelected files with
                                  | Some f => [f]
                                  | None => []
                                  end
       | ev_reader_load =>
           exists file,
             file_readers s = file :: file_readers s'
             /\ new = [call_load (file_bytes file)]
             /\ _programLoaded s'
                = (if emu_load_fails (file_bytes file) (_emulator s)
                   then _programLoaded s else true)
       | _ =>
           Forall (fun c => c = call_tick \/ c = call_gfx) new
           /\ _programLoaded s' = _programLoaded s
           /\ file_readers s' = file_readers s
       end.
Proof.
  assert (Hloop : forall fuel s0 s1, settles (loop fuel s0) s1 ->
            exists new, calls s1 = calls s0 ++ new
              /\ Forall (fun c => c = call_tick \/ c = call_gfx) new
              /\ _programLoaded s1 = _programLoaded s0
              /\ file_readers s1 = file_readers s0).
  { intros fuel s0 s1 Hs.
    destruct (loop_settles fuel s0 s1 Hs) as (k & Hc & _ & _ & _ & Hf & Hp & _).
    eexists. split; [exact Hc |]. split; [| by split].
    apply Forall_app. split; [| constructor; [by right | constructor]].
    apply Forall_replicate. by left. }
  intros Hstep.
  destruct Hstep as [s fuel s' Hs | s files s' Hs | s id rest fuel s' Hreq Hs
                    | s file rest s' Hfile Hs | s k].
  - unfold toggle in Hs. destruct (started s) eqn:Hstarted.
    + simpl in Hs. subst s'. exists [].
      destruct (pause_rest s) as (Hc & _ & _ & Hf & Hp & _).
      rewrite app_nil_r. by repeat split.
    + unfold start in Hs. rewrite Hstarted in Hs. cbn [negb orb] in Hs.
      destruct (loop fuel s) as [s1 | e s1 |] eqn:Hl; cbn [andThen settles] in Hs;
        [| | done]; subst s';
        (destruct (Hloop fuel s s1) as (new & Hc & Hnew & Hp & Hf);
         [by rewrite Hl | exists new; by repeat split]).
  - unfold uploadProgram in Hs.
    set (s0 := ctx_clearRect _ _ _ _ (with_emulator call_reset emu_reset s)) in Hs.
    destruct (pause_rest s0) as (Hc & _ & _ & Hf & Hp & _).
    exists [call_reset].
    destruct (handleFileSelected files) as [file |]; cbn [settles] in Hs; subst s';
      simpl; rewrite ?Hc, ?Hf, ?Hp, ?app_nil_r; by repeat split.
  - destruct (Hloop fuel _ s' Hs) as (new & Hc & Hnew & Hp & Hf).
    exists new. by repeat split.
  - destruct (onload_settles _ _ s' Hs) as (Hc & _ & Hp & _ & _ & _ & Hf & _).
    exists [call_load (file_bytes file)]. split; [exact Hc |].
    exists file. rewrite Hf. by repeat split.
  - exists []. simpl. rewrite app_nil_r. by repeat split.
Qed.

(** X13.  In the running page the element's [_programLoaded] flag is set
    only after [load] has been called on the interpreter; and when [load]
    never throws, it is set exactly when [load] has been called.  (A [load]
    that throws is logged as called and leaves the flag as it was.) *)
Theorem programLoaded_only_after_load attrs s :
  reachable attrs s ->
  (_programLoaded s = true -> exists program, In (call_load program) (calls s))
  /\ ((forall program e, emu_load_fails program e = false) ->
      (exists program, In (call_load program) (calls s)) ->
      _programLoaded s = true).
Proof.
  induction 1 as [| s ev s' _ [IH1 IH2] Hstep].
  - simpl. split; [discriminate |]. by intros _ (program & [Hin | []]).
  - destruct (step_calls s ev s' Hstep) as (new & -> & Hev).
    assert (Hquiet : forall added, Forall (fun c => c = call_tick \/ c = call_gfx
                                                    \/ c = call_reset) added ->
              _programLoaded s' = _programLoaded s ->
              (_programLoaded s' = true ->
               exists program, In (call_load program) (calls s ++ added))
              /\ ((forall program e, emu_load_fails program e = false) ->
                  (exists program, In (call_load program) (calls s ++ added)) ->
                  _programLoaded s' = true)).
    { intros added Hadded ->. split.
      - intros Hflag. destruct (IH1 Hflag) as (program & Hin).
        exists program. apply in_app_iff. by left.
      - intros Hnever (program & Hin). apply (IH2 Hnever). exists program.
        apply in_app_iff in Hin as [Hin | Hin]; [exact Hin |].
        apply list_elem_of_In in Hin.
        rewrite Forall_forall in Hadded.
        by destruct (Hadded _ Hin) as [? | [? | ?]]. }
    destruct ev as [| files | | | k].
    + destruct Hev as (Hnew & Hp & _). apply Hquiet; [| exact Hp].
      eapply Forall_impl; [exact Hnew |]. intros c [-> | ->]; auto.
    + destruct Hev as (-> & Hp & _). apply Hquiet; [| exact Hp].
      constructor; [auto | constructor].
    + destruct Hev as (Hnew & Hp & _). apply Hquiet; [| exact Hp].
      eapply Forall_impl; [exact Hnew |]. intros c [-> | ->]; auto.
    + destruct Hev as (file & _ & -> & Hp). split.
      * intros _. exists (file_bytes file). apply in_app_iff. right. by left.
      * intros Hnever _. by rewrite Hp, Hnever.
    + destruct Hev as (Hnew & Hp & _). apply Hquiet; [| exact Hp].
      eapply Forall_impl; [exact Hnew |]. intros c [-> | ->]; auto.
Qed.

(** X14.  In the running page the interpreter is constructed once, and
    after that the driver calls nothing on it but [tick], [gfx], [reset]
    and [load]. *)
Theorem driver_calls_four_methods attrs s :
  reachable attrs s ->
  exists rest, calls s = call_new :: rest /\ forallb is_driver_call rest = true.
Proof.
  induction 1 as [| s ev s' _ (rest & Hcalls & Hrest) Hstep].
  - by exists [].
  - destruct (step_calls s ev s' Hstep) as (new & -> & Hev).
    exists (rest ++ new). split; [by rewrite Hcalls |].
    rewrite forallb_app, Hrest. cbn [andb].
    assert (Hquiet : Forall (fun c => c = call_tick \/ c = call_gfx) new ->
                     forallb is_driver_call new = true).
    { intros Hnew. apply forallb_forall. intros c Hin.
      apply list_elem_of_In in Hin. rewrite Forall_forall in Hnew.
      by destruct (Hnew _ Hin) as [-> | ->]. }
    destruct ev as [| files | | | k].
    + apply Hquiet, Hev.
    + by destruct Hev as (-> & _).
    + apply Hquiet, Hev.
    + by destruct Hev as (file & _ & -> & _).
    + apply Hquiet, Hev.
Qed.

Lemma ticks_and_gfx_filtered (new : list EmuCall) :
  Forall (fun c => c = call_tick \/ c = call_gfx) new ->
  List.filter is_load new = [] /\ List.filter is_reset new = [].
Proof.
  induction 1 as [| c new Hc _ [IH1 IH2]]; [by split |].
  destruct Hc as [-> | ->]; by split.
Qed.

(** X16.  In the running page the interpreter has never been loaded more
    often than it has been reset: the loads made and the reads still in
    flight together do not outnumber the resets. *)
Theorem loads_never_outnumber_resets attrs s :
  reachable attrs s ->
  (List.length (List.filter is_load (calls s)) + List.length (file_readers s)
   <= List.length (List.filter is_reset (calls s)))%nat.
Proof.
  induction 1 as [| s ev s' _ IH Hstep]; [simpl; lia |].
  destruct (step_calls s ev s' Hstep) as (new & -> & Hev).
  rewrite !List.filter_app, !length_app.
  pose proof (ticks_and_gfx_filtered new) as Hquiet.
  destruct ev as [| files | | | k].
  - destruct Hev as (Hnew & _ & ->). destruct (Hquiet Hnew) as [-> ->]. simpl. lia.
  - destruct Hev as (-> & _ & ->). rewrite length_app.
    destruct (handleFileSelected files); simpl; lia.
  - destruct Hev as (Hnew & _ & ->). destruct (Hquiet Hnew) as [-> ->]. simpl. lia.
  - destruct Hev as (file & Hfile & -> & _). rewrite Hfile in IH. simpl in *. lia.
  - destruct Hev as (Hnew & _ & ->). destruct (Hquiet Hnew) as [-> ->]. simpl. lia.
Qed.

(** A click on an element that is not started runs a frame, when the
    frame can run. *)
Lemma click_runs_a_frame s n :
  started s = false -> ticksPerFrame s = JS.Fin n -> n <= 2 ^ 53 ->
  gfx_fits (_emulator (ticked (Z.to_nat n) s)) ->
  exists s', step s ev_click_start s'.
Proof.
  intros Hstarted Hn Hle Hfit. eexists.
  apply (step_click _ (S (Z.to_nat n))). unfold toggle, start.
  rewrite Hstarted. cbn [negb orb].
  rewrite (loop_runs s n (S (Z.to_nat n)) Hn Hle Hfit) by lia.
  cbn [andThen settles]. reflexivity.
Qed.

(** X17.  A click on the start button of the running page: on a started
    element it pauses (nothing stays requested, the interpreter is not
    called); on one that is not started it runs a frame, after which either
    exactly one frame is requested and the element is started, or the frame
    threw and the element stays as it was, with nothing requested. *)
Theorem toggle_alternates attrs s s' :
  reachable attrs s -> step s ev_click_start s' ->
  if started s
  then started s' = false /\ frame_requests s' = [] /\ calls s' = calls s
  else (started s' = true
        /\ exists id, frame_requests s' = [id] /\ _animationId s' = Some id)
       \/ (started s' = false /\ frame_requests s' = []).
Proof.
  intros Hreach Hstep.
  pose proof (reachable_frames_tracked attrs s Hreach) as Htracked.
  inversion Hstep as [s0 fuel s0' Hs | | | |]; subst. unfold toggle in Hs.
  destruct (started s) eqn:Hstarted.
  - simpl in Hs. subst s'. destruct (pause_stops s Htracked) as [Hnone Hstopped].
    destruct (pause_rest s) as (Hc & _). by repeat split.
  - assert (Hnone : frame_requests s = []).
    { destruct Htracked as [Hnone | (Hst & _)]; [exact Hnone | congruence]. }
    unfold start in Hs. rewrite Hstarted in Hs. cbn [negb orb] in Hs.
    destruct (loop fuel s) as [s1 | e s1 |] eqn:Hloop; cbn [andThen settles] in Hs;
      [| | done]; subst s'.
    + destruct (loop_returns fuel s s1 Hloop) as (_ & _ & id & Hfr & Hid).
      left. split; [apply started_set_started |].
      exists id. simpl. by rewrite Hfr, Hnone.
    + destruct (loop_throws fuel s e s1 Hloop) as (Ha & _ & Hfr).
      right. split; [by rewrite (started_attributes s s1 Ha) | by rewrite Hfr].
Qed.

End PageProperties.

Section CanvasProperties.

Context {E : Type} `{!Emulator E}.
Implicit Types s : Page E.

Lemma frame_paint_inside (e : E) :
  Forall (inside_canvas ((SCALE + 1) * WIDTH + 1) ((SCALE + 1) * HEIGHT + 1))
    (frame_paint e).
Proof.
  apply Forall_forall. intros op Hin. apply list_elem_of_In in Hin.
  unfold frame_paint in Hin. rewrite !in_app_iff in Hin.
  destruct Hin as [Hin | [Hin | [Hin | Hin]]].
  - by destruct Hin as [<- | []].
  - apply in_pass in Hin as (row & col & Hrow & Hcol & ->).
    unfold inside_canvas, cell_rect in *. simpl.
    unfold WIDTH, HEIGHT, SCALE in *. lia.
  - apply in_pass in Hin as (row & col & Hrow & Hcol & ->).
    unfold inside_canvas, cell_rect in *. simpl.
    unfold WIDTH, HEIGHT, SCALE in *. lia.
  - by destruct Hin as [<- | []].
Qed.

(** What a frame does to the canvas: its size stays, and either nothing
    is drawn or one frame's operations are. *)
Lemma loop_canvas fuel s s' :
  settles (loop fuel s) s' ->
  canvas_width (_ctx s') = canvas_width (_ctx s)
  /\ canvas_height (_ctx s') = canvas_height (_ctx s)
  /\ exists ops,
       drawn (_ctx s') = drawn (_ctx s) ++ ops
       /\ (ops = [] \/ exists e, ops = frame_paint e).
Proof.
  unfold loop. intros Hs.
  destruct (loop_ticks fuel (JS.Fin 0) s) as [s1 | e s1 |] eqn:Hticks;
    cbn [andThen] in Hs.
  - assert (Hk : exists k, s1 = ticked k s).
    { eapply loop_ticks_settles. rewrite Hticks. reflexivity. }
    destruct Hk as [k ->].
    destruct (ticked_rest k s) as (_ & _ & _ & Hctx & _).
    destruct (gfx_fits_or_not (_emulator (ticked k s))) as [Hfit | Hfit].
    + rewrite (renderGfx_runs _ Hfit) in Hs. cbn [andThen] in Hs.
      simpl in Hs. subst s'. simpl. rewrite Hctx.
      repeat split. eexists. split; [reflexivity |]. right. by eexists.
    + rewrite (renderGfx_throws _ Hfit) in Hs. cbn [andThen] in Hs.
      simpl in Hs. subst s'. simpl. rewrite Hctx.
      repeat split. exists []. rewrite app_nil_r. split; [reflexivity | by left].
  - exfalso. clear Hs. revert Hticks. generalize (JS.Fin 0). revert s.
    induction fuel as [| fuel IH]; intros s i; simpl; [discriminate |].
    destruct (JS.lt i (ticksPerFrame s)); [apply IH | discriminate].
  - destruct Hs.
Qed.

Lemma pause_ctx s : _ctx (pause s) = _ctx s.
Proof. by destruct (pause_rest s) as (_ & _ & _ & _ & _ & Hctx). Qed.

Lemma step_canvas s ev s' :
  step s ev s' ->
  canvas_width (_ctx s') = canvas_width (_ctx s)
  /\ canvas_height (_ctx s') = canvas_height (_ctx s)
  /\ exists ops,
       drawn (_ctx s') = drawn (_ctx s) ++ ops
       /\ (ops = []
           \/ (exists e, ops = frame_paint e)
           \/ ops = [clearRect 0 0 (canvas_width (_ctx s)) (canvas_height (_ctx s))]).
Proof.
  assert (Hloop : forall fuel s0 s1, settles (loop fuel s0) s1 ->
            canvas_width (_ctx s1) = canvas_width (_ctx s0)
            /\ canvas_height (_ctx s1) = canvas_height (_ctx s0)
            /\ exists ops,
                 drawn (_ctx s1) = drawn (_ctx s0) ++ ops
                 /\ (ops = []
                     \/ (exists e, ops = frame_paint e)
                     \/ ops = [clearRect 0 0 (canvas_width (_ctx s0))
                                 (canvas_height (_ctx s0))])).
  { intros fuel s0 s1 Hs.
    destruct (loop_canvas fuel s0 s1 Hs) as (Hw & Hh & ops & Hd & Hops).
    split; [exact Hw |]. split; [exact Hh |]. exists ops. split; [exact Hd |].
    destruct Hops as [-> | Hframe]; auto. }
  assert (Hsame : forall s0, exists ops,
            drawn (_ctx s0) = drawn (_ctx s0) ++ ops
            /\ (ops = []
                \/ (exists e, ops = frame_paint e)
                \/ ops = [clearRect 0 0 (canvas_width (_ctx s0))
                            (canvas_height (_ctx s0))])).
  { intros s0. exists []. rewrite app_nil_r. auto. }
  intros Hstep.
  destruct Hstep as [s fuel s' Hs | s files s' Hs | s id rest fuel s' Hreq Hs
                    | s file rest s' Hfile Hs | s k].
  - unfold toggle in Hs. destruct (started s) eqn:Hstarted.
    + simpl in Hs. subst s'. rewrite pause_ctx. by repeat split.
    + unfold start in Hs. rewrite Hstarted in Hs. cbn [negb orb] in Hs.
      destruct (loop fuel s) as [s1 | e s1 |] eqn:Hl; cbn [andThen settles] in Hs;
        [| | done]; subst s'; apply (Hloop fuel s s1); by rewrite Hl.
  - unfold uploadProgram in Hs.
    set (s0 := ctx_clearRect _ _ _ _ (with_emulator call_reset emu_reset s)) in Hs.
    assert (Hctx : _ctx s' = _ctx s0).
    { destruct (handleFileSelected files); cbn [settles] in Hs; subst s';
        apply pause_ctx. }
    rewrite Hctx. simpl. repeat split. eexists. split; [reflexivity |]. auto.
  - apply (Hloop fuel _ s' Hs).
  - destruct (onload_settles _ _ s' Hs) as (_ & _ & _ & _ & _ & _ & _ & _ & Hctx).
    rewrite Hctx. simpl. by repeat split.
  - simpl. by repeat split.
Qed.

(** X18.  In the running page the canvas keeps the size the constructor
    gave it (705 by 353), and everything that has been drawn on it, the
    squares of every frame and the clearing at every upload, lies inside
    it. *)
Theorem drawing_stays_inside_canvas attrs s :
  reachable attrs s ->
  canvas_width (_ctx s) = 705
  /\ canvas_height (_ctx s) = 353
  /\ Forall (inside_canvas 705 353) (drawn (_ctx s)).
Proof.
  induction 1 as [| s ev s' _ (Hw & Hh & Hdrawn) Hstep].
  - by repeat split.
  - destruct (step_canvas s ev s' Hstep) as (Hw' & Hh' & ops & Hd & Hops).
    rewrite Hw', Hh', Hd. split; [exact Hw |]. split; [exact Hh |].
    apply Forall_app. split; [exact Hdrawn |].
    destruct Hops as [-> | [(e & ->) | ->]].
    + constructor.
    + exact (frame_paint_inside e).
    + rewrite Hw, Hh. constructor; [| constructor]. simpl. lia.
Qed.

End CanvasProperties.

(* ====================================================================== *)
(** * The further properties on concrete pages                              *)
(* ====================================================================== *)

Lemma ticksPerFrame_set_then_get_witness :
  - 2 ^ 53 <= 7 <= 2 ^ 53
  /\ ticksPerFrame (set_ticksPerFrame 7 example_page) = JS.Fin 7.
Proof.
  split; [lia |].
  apply (ticksPerFrame_set_then_get example_page 7). lia.
Defined.

Lemma at_most_one_frame_pending_witness :
  reachable ∅ example_page
  /\ (List.length (frame_requests example_page) <= 1)%nat.
Proof.
  split; [apply reachable_init |].
  exact (proj1 (at_most_one_frame_pending ∅ example_page (reachable_init ∅))).
Defined.

Lemma loop_throws_when_window_outside_witness :
  ticksPerFrame hollow_page = JS.Fin 10
  /\ ~ gfx_fits (_emulator (ticked (Z.to_nat 10) hollow_page))
  /\ exists s',
       (forall fuel, (Z.to_nat 10 < fuel)%nat ->
                     loop fuel hollow_page = Throw RangeError s')
       /\ calls s' = calls hollow_page ++ replicate (Z.to_nat 10) call_tick ++ [call_gfx]
       /\ _ctx s' = _ctx hollow_page
       /\ frame_requests s' = frame_requests hollow_page
       /\ _animationId s' = _animationId hollow_page
       /\ attributes s' = attributes hollow_page.
Proof.
  assert (Hout : ~ gfx_fits (_emulator (ticked (Z.to_nat 10) hollow_page))).
  { unfold gfx_fits. vm_compute. intros Hle. by apply Hle. }
  split; [reflexivity |]. split; [exact Hout |].
  apply (loop_throws_when_window_outside hollow_page 10); [reflexivity | lia | exact Hout].
Defined.

Lemma loop_never_returns_beyond_2_53_witness :
  JS.lt (JS.Fin (2 ^ 53)) (ticksPerFrame example_page_unbounded) = true
  /\ loop 1000 example_page_unbounded = OutOfFuel.
Proof.
  assert (Hbig : JS.lt (JS.Fin (2 ^ 53)) (ticksPerFrame example_page_unbounded) = true)
    by (vm_compute; reflexivity).
  split; [exact Hbig |].
  exact (loop_never_returns_beyond_2_53 example_page_unbounded Hbig 1000%nat).
Defined.

Lemma start_on_started_element_witness :
  started (with_programLoaded true (set_started true example_page)) = true
  /\ exists s',
       (forall fuel, (Z.to_nat 10 < fuel)%nat ->
          start fuel (with_programLoaded true (set_started true example_page)) = Ok s')
       /\ frame_requests s' = [1%N]
       /\ started s' = true.
Proof.
  split; [reflexivity |].
  apply (start_on_started_element
           (with_programLoaded true (set_started true example_page)) 10);
    [reflexivity | reflexivity | reflexivity | lia
    | unfold gfx_fits; vm_compute; discriminate].
Defined.

Lemma is_key_pressed_only_mapped_keys_witness :
  Keyboard.is_key_pressed 5
    (Keyboard.run [Keyboard.keydown (Keyboard.mkKeyboardEvent 87)]
       (Keyboard.start_detection Keyboard.new)) = true
  /\ (1 <= 5 <= 15)%N.
Proof.
  split; [reflexivity |].
  apply (is_key_pressed_only_mapped_keys
           [Keyboard.keydown (Keyboard.mkKeyboardEvent 87)] Keyboard.new 5).
  reflexivity.
Defined.

Lemma KEYS_MAP_one_to_one_witness :
  Keyboard.KEYS_MAP_get 87 = Some 5%N /\ 87%N = 87%N.
Proof.
  split; [reflexivity |].
  apply (KEYS_MAP_one_to_one 87 87 5); reflexivity.
Defined.

Lemma key_events_leave_other_keys_witness :
  Keyboard.event_key (Keyboard.keyup (Keyboard.mkKeyboardEvent 87)) <> Some 1%N
  /\ Keyboard.is_key_pressed 1
       (Keyboard.dispatch (Keyboard.keyup (Keyboard.mkKeyboardEvent 87))
          (Keyboard.run [Keyboard.keydown (Keyboard.mkKeyboardEvent 49)] Keyboard.new))
     = Keyboard.is_key_pressed 1
         (Keyboard.run [Keyboard.keydown (Keyboard.mkKeyboardEvent 49)] Keyboard.new).
Proof.
  assert (Hother : Keyboard.event_key (Keyboard.keyup (Keyboard.mkKeyboardEvent 87))
                   <> Some 1%N) by (vm_compute; discriminate).
  split; [exact Hother |].
  apply key_events_leave_other_keys, Hother.
Defined.

Lemma frame_squares_inside_canvas_and_apart_witness :
  disjoint_rects (cell_rect FILL_COLOR 0 0) (cell_rect EMPTY_COLOR 0 1).
Proof.
  apply (proj2 (frame_squares_inside_canvas_and_apart (E := Blinker)
                  Framebuffer.cleared ∅));
    unfold HEIGHT, WIDTH; lia.
Defined.


(** A page reached by selecting a two-byte program and letting the read
    complete. *)
Lemma example_loaded_page_reachable :
  exists s : Page Blinker, reachable ∅ s /\ _programLoaded s = true.
Proof.
  eexists. split.
  - eapply reachable_step; [eapply reachable_step; [apply reachable_init |] |].
    + apply (step_file_selected _ [mkFile [0x00; 0xE0]]).
      cbn [handleFileSelected head uploadProgram settles]. reflexivity.
    + eapply step_reader_load; [reflexivity |].
      unfold uploadProgram_onload.
      change (emu_load_fails _ _) with false. cbn [settles]. reflexivity.
  - reflexivity.
Qed.

Lemma programLoaded_only_after_load_witness :
  exists s : Page Blinker,
    reachable ∅ s
    /\ _programLoaded s = true
    /\ exists program, In (call_load program) (calls s).
Proof.
  destruct example_loaded_page_reachable as (s & Hreach & Hflag).
  exists s. split; [exact Hreach |]. split; [exact Hflag |].
  exact (proj1 (programLoaded_only_after_load ∅ s Hreach) Hflag).
Defined.

Lemma driver_calls_four_methods_witness :
  reachable ∅ example_page
  /\ exists rest,
       calls example_page = call_new :: rest /\ forallb is_driver_call rest = true.
Proof.
  split; [apply reachable_init |].
  apply (driver_calls_four_methods ∅ example_page), reachable_init.
Defined.

Lemma loads_never_outnumber_resets_witness :
  reachable ∅ example_page
  /\ (List.length (List.filter is_load (calls example_page))
      + List.length (file_readers example_page)
      <= List.length (List.filter is_reset (calls example_page)))%nat.
Proof.
  split; [apply reachable_init |].
  apply (loads_never_outnumber_resets ∅ example_page), reachable_init.
Defined.

Lemma toggle_alternates_witness :
  exists s',
    step example_page ev_click_start s'
    /\ ((started s' = true
         /\ exists id, frame_requests s' = [id] /\ _animationId s' = Some id)
        \/ (started s' = false /\ frame_requests s' = [])).
Proof.
  destruct (click_runs_a_frame example_page 10 eq_refl eq_refl ltac:(lia)
              (example_page_fits _)) as [s' Hstep].
  exists s'. split; [exact Hstep |].
  exact (toggle_alternates ∅ example_page s' (reachable_init ∅) Hstep).
Defined.

Lemma drawing_stays_inside_canvas_witness :
  reachable ∅ example_page
  /\ canvas_width (_ctx example_page) = 705
  /\ canvas_height (_ctx example_page) = 353
  /\ Forall (inside_canvas 705 353) (drawn (_ctx example_page)).
Proof.
  split; [apply reachable_init |].
  apply (drawing_stays_inside_canvas ∅ example_page), reachable_init.
Defined.
